(** * MiniTinyTask: the event capture / playback engine

    A shallow embedding of the recorder, the player, the serializer and
    the wiring of the control surface ([recorder.py], [player.py],
    [utils.py], [models.py], [ui.py], [main.py], [MacOSTinyTask.py]),
    followed by the properties proved about them.

    Conventions of the embedding.
    - A Python [float] is an exact rational ([Q]); rounding is not modelled.
    - A value read from a JSON document, or stored in [Event.data], is a
      [pyval]; a [dict] is an association list in insertion order.
    - A function that can raise returns [exn + A]; a procedure that
      mutates an object takes the object and returns the new one.
    - What the host supplies (the monotonic clock, the other thread that
      calls [stop()], [random.randint], the input controllers of pynput)
      is a variable of the enclosing section, indexed by the number of
      calls made so far. *)

From Stdlib Require Import ZArith QArith Qminmax.
From Stdlib Require Import List String Ascii Bool Arith Lia Lqa.
From Stdlib Require Import DecimalString.
Import ListNotations.

Local Open Scope string_scope.
Local Open Scope Z_scope.

(* ================================================================== *)
(** * Python values and exceptions *)

#[local] Set Warnings "-register-all".

Inductive pyval : Type :=
| PNone
| PBool (b : bool)
| PInt (z : Z)
| PFloat (q : Q)
| PStr (s : string)
| PList (l : list pyval)
| PDict (d : list (string * pyval)).

Inductive exn : Type :=
| KeyError (key : string)
| TypeError
| ValueError
| AttributeError
| OverflowError
| OSError (msg : string).

(** A small error monad for code inside which an exception may be raised. *)
Definition result (A : Type) : Type := (exn + A)%type.
Definition ret {A} (a : A) : result A := inr a.
Definition raise {A} (e : exn) : result A := inl e.
Definition bind {A B} (m : result A) (k : A -> result B) : result B :=
  match m with
  | inl e => inl e
  | inr a => k a
  end.

Declare Scope py_scope.
Delimit Scope py_scope with py.
Notation "x <- m ;; k" := (bind m (fun x => k))
  (at level 61, m at next level, right associativity) : py_scope.
Local Open Scope py_scope.

(** [d[k]] on a dict. *)
Fixpoint lookup (k : string) (d : list (string * pyval)) : option pyval :=
  match d with
  | [] => None
  | (k', v) :: d' => if String.eqb k k' then Some v else lookup k d'
  end.

(** [v[k]] with a string subscript: only a dict accepts it. *)
Definition py_getitem (v : pyval) (k : string) : result pyval :=
  match v with
  | PDict d =>
      match lookup k d with
      | Some x => ret x
      | None => raise (KeyError k)
      end
  | _ => raise TypeError
  end.

(** [v.get(k, default)]: only a dict has the method. *)
Definition py_get (v : pyval) (k : string) (default : pyval) : result pyval :=
  match v with
  | PDict d =>
      match lookup k d with
      | Some x => ret x
      | None => ret default
      end
  | _ => raise AttributeError
  end.

(** The characters of a string, each as a string of length one. *)
Fixpoint chars (s : string) : list pyval :=
  match s with
  | EmptyString => []
  | String c s' => PStr (String c EmptyString) :: chars s'
  end.

(** [for e in v]: the elements of a list, the characters of a string,
    the keys of a dict. *)
Definition py_iter (v : pyval) : result (list pyval) :=
  match v with
  | PList l => ret l
  | PStr s => ret (chars s)
  | PDict d => ret (map (fun kv => PStr (fst kv)) d)
  | _ => raise TypeError
  end.

(** [bool(v)]. *)
Definition py_bool (v : pyval) : bool :=
  match v with
  | PNone => false
  | PBool b => b
  | PInt z => negb (z =? 0)
  | PFloat q => negb (Qeq_bool q 0)
  | PStr s => negb (String.eqb s "")
  | PList l => match l with [] => false | _ => true end
  | PDict d => match d with [] => false | _ => true end
  end.

Section Builtins.

(** [int(s)] and [float(s)] on a string: the parsers of the Python
    runtime, [None] when they raise [ValueError]. *)
Variable int_of_str : string -> option Z.
Variable float_of_str : string -> option Q.

(** [int(v)]; a float is truncated toward zero. *)
Definition py_int (v : pyval) : result Z :=
  match v with
  | PInt z => ret z
  | PBool b => ret (if b then 1 else 0)
  | PFloat q => ret (Z.quot (Qnum q) (Z.pos (Qden q)))
  | PStr s =>
      match int_of_str s with
      | Some z => ret z
      | None => raise ValueError
      end
  | _ => raise TypeError
  end.

(** [float(v)]; an int that rounds to no double raises
    [OverflowError]. *)
Definition py_float (v : pyval) : result Q :=
  match v with
  | PFloat q => ret q
  | PInt z =>
      if Z.abs z <? 2 ^ 1024 - 2 ^ 970 then ret (inject_Z z)
      else raise OverflowError
  | PBool b => ret (if b then 1%Q else 0%Q)
  | PStr s =>
      match float_of_str s with
      | Some q => ret q
      | None => raise ValueError
      end
  | _ => raise TypeError
  end.

End Builtins.

(* ================================================================== *)
(** * models.py *)

Record Event : Type := mkEvent {
  t : Q;            (* seconds since the start of recording *)
  kind : pyval;     (* 'move','click','scroll','kpress','krelease' *)
  data : pyval
}.

Record Macro : Type := mkMacro { events : list Event }.

(* ================================================================== *)
(** * pynput: keys and buttons *)

(** A key handed to a keyboard callback: a member of the enumeration
    [keyboard.Key], named by its member name, or a [KeyCode], which has a
    character or only a virtual key code. *)
Inductive Key : Type :=
| KeyEnum (name : string)
| KeyCode_char (c : string)
| KeyCode_vk (vk : Z).

Inductive Button : Type :=
| Button_left
| Button_right
| Button_middle
| Button_other (repr : string).

(** A pointer coordinate as a mouse callback receives it: an int, or a
    float (the macOS backend passes floats). *)
Inductive Coord : Type :=
| CInt (z : Z)
| CFloat (q : Q).

Coercion CInt : Z >-> Coord.

Definition Coord_value (c : Coord) : Q :=
  match c with
  | CInt z => inject_Z z
  | CFloat q => q
  end.

(** [int(x)]; a float is truncated toward zero. *)
Definition Coord_int (c : Coord) : Z :=
  match c with
  | CInt z => z
  | CFloat q => Z.quot (Qnum q) (Z.pos (Qden q))
  end.

(** The coordinate as a value of a payload, when it is stored as it
    came. *)
Definition Coord_py (c : Coord) : pyval :=
  match c with
  | CInt z => PInt z
  | CFloat q => PFloat q
  end.

Definition Key_eqb (a b : Key) : bool :=
  match a, b with
  | KeyEnum n, KeyEnum m => String.eqb n m
  | KeyCode_char c, KeyCode_char d => String.eqb c d
  | KeyCode_vk v, KeyCode_vk w => v =? w
  | _, _ => false
  end.

(** [k in keys] for a set of keys. *)
Definition Key_in (k : Key) (keys : list Key) : bool := existsb (Key_eqb k) keys.

Definition str_of_Z (z : Z) : string := NilEmpty.string_of_int (Z.to_int z).
Definition str_of_nat (n : nat) : string := NilEmpty.string_of_uint (Nat.to_uint n).

(** [str(k)]. *)
Definition Key_str (k : Key) : string :=
  match k with
  | KeyEnum name => "Key." ++ name
  | KeyCode_char c => "'" ++ c ++ "'"
  | KeyCode_vk vk => "<" ++ str_of_Z vk ++ ">"
  end.

(* ================================================================== *)
(** * utils.py *)

Module Utils.

(** ** Timing helpers *)

Record RecClock : Type := mkRecClock { _t0 : option Q }.

Definition RecClock_init : RecClock := mkRecClock None.

Section Clock.

(** [perf_counter n] is what the [n]-th call of [time.perf_counter()]
    returns. *)
Variable perf_counter : nat -> Q.

Definition start (c : RecClock) (n : nat) : RecClock * nat :=
  (mkRecClock (Some (perf_counter n)), S n).

(** [self._t0 or time.perf_counter()]: a zero anchor is falsy, and the
    clock is then read a second time. *)
Definition now_rel (c : RecClock) (n : nat) : Q * RecClock * nat :=
  let '(t0, n1) := match _t0 c with
                   | None => (perf_counter n, S n)      (* self.start() *)
                   | Some a => (a, n)
                   end in
  let now := perf_counter n1 in
  if Qeq_bool t0 0%Q
  then ((now - perf_counter (S n1))%Q, mkRecClock (Some t0), S (S n1))
  else ((now - t0)%Q, mkRecClock (Some t0), S n1).

End Clock.

(** ** Serialization helpers *)

Definition key_to_str (k : Key) : string :=
  match k with
  | KeyCode_char c => "char:" ++ c
  | KeyEnum name =>
      if String.eqb name "" then "key:" ++ Key_str k else "key:" ++ name
  | KeyCode_vk _ => "key:" ++ Key_str k
  end.

(** [s.split(sep, 1)[1]] when [s] starts with [prefix ++ ...]: the text
    after [n] leading characters. *)
Definition drop (n : nat) (s : string) : string :=
  substring n (String.length s - n) s.

Definition startswith (p s : string) : bool := String.prefix p s.

Section Keys.

(** The member names of the enumeration [keyboard.Key]. *)
Variable Key_names : list string.

(** [keyboard.Key[name]], [None] for [KeyError]. *)
Definition Key_item (name : string) : option Key :=
  if existsb (String.eqb name) Key_names then Some (KeyEnum name) else None.

(** The character of a ["char:"] string comes back as a plain string,
    which the keyboard controller takes for the key of that
    character. *)
Definition str_to_key (s : string) : option Key :=
  if startswith "char:" s then Some (KeyCode_char (drop 5 s))
  else if startswith "key:" s then
    let name := drop 4 s in
    match Key_item name with
    | Some k => Some k
    | None =>
        if startswith "Key." name
        then Key_item (drop 4 name)
        else None
    end
  else None.

End Keys.

Definition button_to_str (b : Button) : string :=
  match b with
  | Button_left => "left"
  | Button_right => "right"
  | Button_middle => "middle"
  | Button_other repr => repr
  end.

(** [{...}.get(s, mouse.Button.left)]: any hashable value is a legal
    key of the lookup; a list or a dict is not hashable. *)
Definition str_to_button (s : pyval) : result Button :=
  match s with
  | PStr name =>
      if String.eqb name "left" then ret Button_left
      else if String.eqb name "right" then ret Button_right
      else if String.eqb name "middle" then ret Button_middle
      else ret Button_left
  | PList _ | PDict _ => raise TypeError
  | _ => ret Button_left
  end.

End Utils.

(* ================================================================== *)
(** * recorder.py *)

Definition Qlt_bool (a b : Q) : bool := negb (Qle_bool b a).

(** [a == b] on two pairs of numbers: an int and a float are equal when
    they are the same number. *)
Definition pos_eqb (a b : Coord * Coord) : bool :=
  Qeq_bool (Coord_value (fst a)) (Coord_value (fst b))
  && Qeq_bool (Coord_value (snd a)) (Coord_value (snd b)).

(** [self._last_pos == (x, y)]; [None] equals no pair. *)
Definition last_pos_is (last : option (Coord * Coord)) (p : Coord * Coord) : bool :=
  match last with
  | Some q => pos_eqb q p
  | None => false
  end.

(** What the global input subsystem (and the control surface) can do to
    a recorder, one call each. The pointer position comes as the backend
    has it, ints or floats; the scroll steps are ints on every backend. *)
Inductive Input : Type :=
| Start
| Stop
| Move (x y : Coord)
| Click (x y : Coord) (button : Button) (pressed : bool)
| Scroll (x y : Coord) (dx dy : Z)
| KeyPress (k : Key)
| KeyRelease (k : Key).

Module Recorder.

Record Recorder : Type := mkRecorder {
  clock : Utils.RecClock;
  move_min_interval : Q;               (* seconds *)
  _last_move_t : Q;
  _last_pos : option (Coord * Coord);
  _recording : bool;
  macro : Macro;
  IGNORE_KEYS : list Key;
  (* an attribute the class never defines; present only once assigned *)
  ignore_keys : option (list Key)
}.

Definition __init__ (move_min_interval : Q) : Recorder :=
  {| clock := Utils.RecClock_init;
     move_min_interval := move_min_interval;
     _last_move_t := 0%Q;
     _last_pos := None;
     _recording := false;
     macro := mkMacro [];
     IGNORE_KEYS := [KeyEnum "f8"; KeyEnum "f9"; KeyEnum "f10";
                     KeyEnum "f11"; KeyEnum "esc"];
     ignore_keys := None |}.

Definition set_clock (c : Utils.RecClock) (r : Recorder) : Recorder :=
  {| clock := c;
     move_min_interval := move_min_interval r;
     _last_move_t := _last_move_t r;
     _last_pos := _last_pos r;
     _recording := _recording r;
     macro := macro r;
     IGNORE_KEYS := IGNORE_KEYS r;
     ignore_keys := ignore_keys r |}.

Definition set_recording (b : bool) (r : Recorder) : Recorder :=
  {| clock := clock r;
     move_min_interval := move_min_interval r;
     _last_move_t := _last_move_t r;
     _last_pos := _last_pos r;
     _recording := b;
     macro := macro r;
     IGNORE_KEYS := IGNORE_KEYS r;
     ignore_keys := ignore_keys r |}.

(** [self.macro.events.append(e)] *)
Definition append (e : Event) (r : Recorder) : Recorder :=
  {| clock := clock r;
     move_min_interval := move_min_interval r;
     _last_move_t := _last_move_t r;
     _last_pos := _last_pos r;
     _recording := _recording r;
     macro := mkMacro (events (macro r) ++ [e]);
     IGNORE_KEYS := IGNORE_KEYS r;
     ignore_keys := ignore_keys r |}.

Definition set_last_move (tm : Q) (p : Coord * Coord) (r : Recorder) : Recorder :=
  {| clock := clock r;
     move_min_interval := move_min_interval r;
     _last_move_t := tm;
     _last_pos := Some p;
     _recording := _recording r;
     macro := macro r;
     IGNORE_KEYS := IGNORE_KEYS r;
     ignore_keys := ignore_keys r |}.

Section Handlers.

Variable perf_counter : nat -> Q.

(** ** lifecycle *)

Definition start (r : Recorder) (n : nat) : Recorder * nat :=
  if _recording r then (r, n)
  else
    let '(c, n1) := Utils.start perf_counter (clock r) n in
    ({| clock := c;
        move_min_interval := move_min_interval r;
        _last_move_t := 0%Q;
        _last_pos := None;
        _recording := true;
        macro := mkMacro [];
        IGNORE_KEYS := IGNORE_KEYS r;
        ignore_keys := ignore_keys r |}, n1).

Definition stop (r : Recorder) : Recorder := set_recording false r.

(** ** handlers *)

Definition _now (r : Recorder) (n : nat) : Q * Recorder * nat :=
  let '(tm, c, n1) := Utils.now_rel perf_counter (clock r) n in
  (tm, set_clock c r, n1).

(** The position is compared and remembered as it came, and written
    into the event as [int(x)], [int(y)]. *)
Definition _on_move (r : Recorder) (n : nat) (x y : Coord) : Recorder * nat :=
  if negb (_recording r) then (r, n)
  else
    let '(tm, r1, n1) := _now r n in
    if Qlt_bool (tm - _last_move_t r1) (move_min_interval r1) then (r1, n1)
    else if last_pos_is (_last_pos r1) (x, y) then (r1, n1)
    else
      (append (mkEvent tm (PStr "move")
                 (PDict [("x", PInt (Coord_int x)); ("y", PInt (Coord_int y))]))
              (set_last_move tm (x, y) r1), n1).

Definition _on_click (r : Recorder) (n : nat) (x y : Coord) (button : Button)
  (pressed : bool) : Recorder * nat :=
  if negb (_recording r) then (r, n)
  else
    let '(tm, r1, n1) := _now r n in
    (append (mkEvent tm (PStr "click")
               (PDict [("x", PInt (Coord_int x)); ("y", PInt (Coord_int y));
                       ("button", PStr (Utils.button_to_str button));
                       ("pressed", PBool pressed)])) r1, n1).

Definition _on_scroll (r : Recorder) (n : nat) (x y : Coord) (dx dy : Z)
  : Recorder * nat :=
  if negb (_recording r) then (r, n)
  else
    let '(tm, r1, n1) := _now r n in
    (append (mkEvent tm (PStr "scroll")
               (PDict [("x", PInt (Coord_int x)); ("y", PInt (Coord_int y));
                       ("dx", PInt dx); ("dy", PInt dy)])) r1, n1).

Definition _on_key_press (r : Recorder) (n : nat) (k : Key) : Recorder * nat :=
  if negb (_recording r) || Key_in k (IGNORE_KEYS r) then (r, n)
  else
    let '(tm, r1, n1) := _now r n in
    (append (mkEvent tm (PStr "kpress")
               (PDict [("key", PStr (Utils.key_to_str k))])) r1, n1).

Definition _on_key_release (r : Recorder) (n : nat) (k : Key) : Recorder * nat :=
  if negb (_recording r) || Key_in k (IGNORE_KEYS r) then (r, n)
  else
    let '(tm, r1, n1) := _now r n in
    (append (mkEvent tm (PStr "krelease")
               (PDict [("key", PStr (Utils.key_to_str k))])) r1, n1).

(** One call on the recorder, and a sequence of calls, each run to its
    end before the next begins. *)
Definition step (s : Recorder * nat) (i : Input) : Recorder * nat :=
  let '(r, n) := s in
  match i with
  | Start => start r n
  | Stop => (stop r, n)
  | Move x y => _on_move r n x y
  | Click x y b p => _on_click r n x y b p
  | Scroll x y dx dy => _on_scroll r n x y dx dy
  | KeyPress k => _on_key_press r n k
  | KeyRelease k => _on_key_release r n k
  end.

Definition run (inputs : list Input) (s : Recorder * nat) : Recorder * nat :=
  fold_left step inputs s.

End Handlers.

End Recorder.

(* ================================================================== *)
(** * MacOSTinyTask.py: the recording side of the single-file script *)

Module MacOSTinyTask.

(** The module-level variables the recording functions use. *)
Record Globals : Type := mkGlobals {
  macro : Macro;
  recording : bool;
  playing : bool;
  _rec_start_time : option Q;
  _last_move_time : Q;
  _last_move_pos : option (Coord * Coord);
  status : list string
}.

Definition _MOVE_MIN_INTERVAL : Q := 1 # 100.   (* 10ms *)

Definition initial : Globals :=
  {| macro := mkMacro [];
     recording := false;
     playing := false;
     _rec_start_time := None;
     _last_move_time := 0%Q;
     _last_move_pos := None;
     status := [] |}.

Definition _set_status (msg : string) (g : Globals) : Globals :=
  {| macro := macro g;
     recording := recording g;
     playing := playing g;
     _rec_start_time := _rec_start_time g;
     _last_move_time := _last_move_time g;
     _last_move_pos := _last_move_pos g;
     status := status g ++ [msg] |}.

Section Recording.

Variable perf_counter : nat -> Q.

(** [time.perf_counter() - (_rec_start_time or time.perf_counter())] *)
Definition _now_rel (g : Globals) (n : nat) : Q * nat :=
  let now := perf_counter n in
  match _rec_start_time g with
  | Some t0 =>
      if Qeq_bool t0 0%Q then ((now - perf_counter (S n))%Q, S (S n))
      else ((now - t0)%Q, S n)
  | None => ((now - perf_counter (S n))%Q, S (S n))
  end.

Definition start_recording (g : Globals) (n : nat) : Globals * nat :=
  if playing g then (_set_status "Can't record during playback." g, n)
  else
    (_set_status "Recording... (F8 to stop)"
       {| macro := mkMacro [];
          recording := true;
          playing := playing g;
          _rec_start_time := Some (perf_counter n);
          _last_move_time := 0%Q;
          _last_move_pos := None;
          status := status g |}, S n).

Definition stop_recording (g : Globals) : Globals :=
  _set_status ("Recorded " ++ str_of_nat (List.length (events (macro g))) ++ " events.")
    {| macro := macro g;
       recording := false;
       playing := playing g;
       _rec_start_time := _rec_start_time g;
       _last_move_time := _last_move_time g;
       _last_move_pos := _last_move_pos g;
       status := status g |}.

Definition set_last_move_time (tm : Q) (g : Globals) : Globals :=
  {| macro := macro g;
     recording := recording g;
     playing := playing g;
     _rec_start_time := _rec_start_time g;
     _last_move_time := tm;
     _last_move_pos := _last_move_pos g;
     status := status g |}.

Definition on_move (g : Globals) (n : nat) (x y : Coord) : Globals * nat :=
  if negb (recording g) then (g, n)
  else
    let '(tm, n1) := _now_rel g n in
    (* throttle move events *)
    if Qlt_bool (tm - _last_move_time g) _MOVE_MIN_INTERVAL then (g, n1)
    else
      let g1 := set_last_move_time tm g in
      if last_pos_is (_last_move_pos g1) (x, y) then (g1, n1)
      else
        ({| macro := mkMacro (events (macro g1) ++
                        [mkEvent tm (PStr "move")
                           (PDict [("x", Coord_py x); ("y", Coord_py y)])]);
            recording := recording g1;
            playing := playing g1;
            _rec_start_time := _rec_start_time g1;
            _last_move_time := _last_move_time g1;
            _last_move_pos := Some (x, y);
            status := status g1 |}, n1).

End Recording.

(** [start_playback]: the speed read from the entry, made safe before
    [play_once] is called with it. *)
Definition start_playback_speed (speed : Q) : Q :=
  if Qle_bool speed 0 then 1%Q else speed.

(** ** The other callbacks and the key strings of the script *)

(** Keys to ignore during recording (so toggles aren't captured) *)
Definition IGNORE_KEYS : list Key :=
  [KeyEnum "f8"; KeyEnum "f9"; KeyEnum "f10"; KeyEnum "f11"; KeyEnum "esc"].

(** Convert pynput key to a JSON-serializable string *)
Definition _key_to_str (k : Key) : string :=
  match k with
  | KeyCode_char c => "char:" ++ c
  | _ => "key:" ++ Key_str k      (* e.g., 'key:Key.space', 'key:Key.cmd' *)
  end.

(** What [getattr(keyboard.Key, keyname, None)] can return: a member of
    the enumeration, or another attribute of the class. *)
Inductive KeyAttr : Type :=
| Member (k : Key)
| Attribute (name : string).

Section ScriptKeys.

(** The member names of [keyboard.Key], and the names of the other
    attributes [getattr] finds on the class. *)
Variable Key_names : list string.
Variable Key_attributes : list string.

Definition getattr_Key (keyname : string) : option KeyAttr :=
  if existsb (String.eqb keyname) Key_names then Some (Member (KeyEnum keyname))
  else if existsb (String.eqb keyname) Key_attributes then Some (Attribute keyname)
  else None.

(** Convert stored string back to pynput key/char *)
Definition _str_to_key (s : string) : option KeyAttr :=
  if Utils.startswith "char:" s then Some (Member (KeyCode_char (Utils.drop 5 s)))
  else if Utils.startswith "key:" s then
    let name := Utils.drop 4 s in      (* 'Key.space' *)
    if Utils.startswith "Key." name then getattr_Key (Utils.drop 4 name)
    else None
  else None.

End ScriptKeys.

Definition _button_to_str (b : Button) : string :=
  match b with
  | Button_left => "left"
  | Button_right => "right"
  | Button_middle => "middle"
  | Button_other repr => repr
  end.

(** [macro.events.append(e)] *)
Definition append_event (e : Event) (g : Globals) : Globals :=
  {| macro := mkMacro (events (macro g) ++ [e]);
     recording := recording g;
     playing := playing g;
     _rec_start_time := _rec_start_time g;
     _last_move_time := _last_move_time g;
     _last_move_pos := _last_move_pos g;
     status := status g |}.

Section Callbacks.

Variable perf_counter : nat -> Q.

Definition on_click (g : Globals) (n : nat) (x y : Coord) (button : Button)
  (pressed : bool) : Globals * nat :=
  if negb (recording g) then (g, n)
  else
    let '(tm, n1) := _now_rel perf_counter g n in
    (append_event
       (mkEvent tm (PStr "click")
          (PDict [("x", Coord_py x); ("y", Coord_py y);
                  ("button", PStr (_button_to_str button));
                  ("pressed", PBool pressed)])) g, n1).

Definition on_scroll (g : Globals) (n : nat) (x y : Coord) (dx dy : Z)
  : Globals * nat :=
  if negb (recording g) then (g, n)
  else
    let '(tm, n1) := _now_rel perf_counter g n in
    (append_event
       (mkEvent tm (PStr "scroll")
          (PDict [("x", Coord_py x); ("y", Coord_py y);
                  ("dx", PInt dx); ("dy", PInt dy)])) g,
     n1).

Definition on_key_press (g : Globals) (n : nat) (k : Key) : Globals * nat :=
  if negb (recording g) then (g, n)
  else if Key_in k IGNORE_KEYS then (g, n)
  else
    let '(tm, n1) := _now_rel perf_counter g n in
    (append_event
       (mkEvent tm (PStr "kpress") (PDict [("key", PStr (_key_to_str k))])) g, n1).

Definition on_key_release (g : Globals) (n : nat) (k : Key) : Globals * nat :=
  if negb (recording g) then (g, n)
  else if Key_in k IGNORE_KEYS then (g, n)
  else
    let '(tm, n1) := _now_rel perf_counter g n in
    (append_event
       (mkEvent tm (PStr "krelease") (PDict [("key", PStr (_key_to_str k))])) g, n1).

Definition toggle_recording (g : Globals) (n : nat) : Globals * nat :=
  if recording g then (stop_recording g, n)
  else start_recording perf_counter g n.

(** One call on the script: [Start] and [Stop] are the two buttons of
    its window. *)
Definition step (s : Globals * nat) (i : Input) : Globals * nat :=
  let '(g, n) := s in
  match i with
  | Start => start_recording perf_counter g n
  | Stop => (stop_recording g, n)
  | Move x y => on_move perf_counter g n x y
  | Click x y b p => on_click g n x y b p
  | Scroll x y dx dy => on_scroll g n x y dx dy
  | KeyPress k => on_key_press g n k
  | KeyRelease k => on_key_release g n k
  end.

Definition run (inputs : list Input) (s : Globals * nat) : Globals * nat :=
  fold_left step inputs s.

End Callbacks.

End MacOSTinyTask.

(* ================================================================== *)
(** * player.py *)

(** What a run of the player does that can be seen from outside: the
    messages handed to [on_status], the timed waits on the stop event,
    and the calls on the mouse and keyboard controllers that went
    through. *)
Inductive Output : Type :=
| Status (msg : string)
| StatusPlaybackError (ex : exn)        (* f"Playback error: {ex}" *)
| Wait (timeout : Q)
| MousePosition (x y : Z)
| MousePress (b : Button)
| MouseRelease (b : Button)
| MouseScroll (dx dy : Z)
| KbdPress (k : Key)
| KbdRelease (k : Key).

(** The calls on the controllers, as opposed to messages and waits. *)
Definition is_emission (o : Output) : bool :=
  match o with
  | Status _ | StatusPlaybackError _ | Wait _ => false
  | _ => true
  end.

Record World : Type := mkWorld {
  stop_reads : nat;       (* reads of the stop event made so far *)
  rand_calls : nat;       (* calls of random.randint made so far *)
  ctl_calls : nat;        (* calls on the controllers made so far *)
  out : list Output
}.

Definition output (o : Output) (w : World) : World :=
  {| stop_reads := stop_reads w;
     rand_calls := rand_calls w;
     ctl_calls := ctl_calls w;
     out := out w ++ [o] |}.

(** Code inside the [try] block: it acts on the world and may raise. *)
Definition Play (A : Type) : Type := World -> World * result A.

Definition pure {A} (m : result A) : Play A := fun w => (w, m).

Definition bindP {A B} (m : Play A) (k : A -> Play B) : Play B :=
  fun w =>
    match m w with
    | (w1, inl e) => (w1, inl e)
    | (w1, inr a) => k a w1
    end.

Notation "x <~ m ;; k" := (bindP m (fun x => k))
  (at level 61, m at next level, right associativity) : py_scope.

(** The waits of a run (scaled by speed), [prev] being the time of the
    event before. *)
Fixpoint waits_from (prev : Q) (evs : list Event) (speed : Q) : list Q :=
  match evs with
  | [] => []
  | e :: evs' =>
      Qmax 0 ((t e - prev) / Qmax (1 # 1000000) speed) :: waits_from (t e) evs' speed
  end.

Definition compute_waits (evs : list Event) (speed : Q) : list Q :=
  waits_from 0 evs speed.

(** [threading.TIMEOUT_MAX], as the POSIX builds of the interpreter have
    it (292 years, in seconds): a timed wait on an event that is not set
    raises [OverflowError] for a timeout above it, and returns for any
    timeout up to it. *)
Definition TIMEOUT_MAX : Q := 9223372036.

(** [self._stop_evt.wait(timeout=wait)] returns. *)
Definition wait_returns (wait : Q) : Prop := (wait <= TIMEOUT_MAX)%Q.

(** [e.kind == name] *)
Definition kind_is (e : Event) (name : string) : bool :=
  match kind e with
  | PStr s => String.eqb s name
  | _ => false
  end.

Module Player.

Record Player : Type := mkPlayer {
  _stop_evt : bool;
  _playing : bool
}.

Definition __init__ : Player := {| _stop_evt := false; _playing := false |}.

Definition stop (p : Player) : Player :=
  {| _stop_evt := true; _playing := _playing p |}.

Section Host.

Variable int_of_str : string -> option Z.
Variable Key_names : list string.

(** [stop_called n]: between the read of the stop event numbered [n - 1]
    and the read numbered [n], another thread has called [stop()]. *)
Variable stop_called : nat -> bool.

(** [randint n a b]: what the [n]-th call of [random.randint] returns,
    called with the bounds [a] and [b]. *)
Variable randint : nat -> Z -> Z -> Z.

(** [controller_raises n]: the [n]-th call on a controller raises, with
    this message. *)
Variable controller_raises : nat -> option string.

(** [self._stop_evt.is_set()] *)
Definition is_set (p : Player) (w : World) : bool * Player * World :=
  let flag := _stop_evt p || stop_called (stop_reads w) in
  (flag,
   {| _stop_evt := flag; _playing := _playing p |},
   {| stop_reads := S (stop_reads w);
      rand_calls := rand_calls w;
      ctl_calls := ctl_calls w;
      out := out w |}).

Definition random_randint (a b : Z) : Play Z :=
  fun w =>
    ({| stop_reads := stop_reads w;
        rand_calls := S (rand_calls w);
        ctl_calls := ctl_calls w;
        out := out w |}, ret (randint (rand_calls w) a b)).

(** A call on [self._mouse] or [self._kbd]. *)
Definition controller (o : Output) : Play unit :=
  fun w =>
    let w1 := {| stop_reads := stop_reads w;
                 rand_calls := rand_calls w;
                 ctl_calls := S (ctl_calls w);
                 out := out w |} in
    match controller_raises (ctl_calls w) with
    | Some msg => (w1, raise (OSError msg))
    | None => (output o w1, ret tt)
    end.

Definition jittered (jitter_px : Z) (x y : Z) : Play (Z * Z) :=
  if 0 <? jitter_px then
    dx <~ random_randint (- jitter_px) jitter_px ;;
    dy <~ random_randint (- jitter_px) jitter_px ;;
    pure (ret (x + dx, y + dy))
  else pure (ret (x, y)).

(** [str_to_key(v)]: [v.startswith] exists on a string only. *)
Definition str_to_key_val (v : pyval) : result (option Key) :=
  match v with
  | PStr s => ret (Utils.str_to_key Key_names s)
  | _ => raise AttributeError
  end.

(** The body of the [try] block for one event. *)
Definition emit (jitter_px : Z) (e : Event) : Play unit :=
  if kind_is e "move" then
    x <~ pure (v <- py_getitem (data e) "x" ;; py_int int_of_str v) ;;
    y <~ pure (v <- py_getitem (data e) "y" ;; py_int int_of_str v) ;;
    xy <~ jittered jitter_px x y ;;
    controller (MousePosition (fst xy) (snd xy))
  else if kind_is e "click" then
    x <~ pure (v <- py_getitem (data e) "x" ;; py_int int_of_str v) ;;
    y <~ pure (v <- py_getitem (data e) "y" ;; py_int int_of_str v) ;;
    btn <~ pure (v <- py_getitem (data e) "button" ;; Utils.str_to_button v) ;;
    pressed <~ pure (v <- py_getitem (data e) "pressed" ;; ret (py_bool v)) ;;
    xy <~ jittered jitter_px x y ;;
    _ <~ controller (MousePosition (fst xy) (snd xy)) ;;
    if (pressed : bool) then controller (MousePress btn)
    else controller (MouseRelease btn)
  else if kind_is e "scroll" then
    dx <~ pure (v <- py_get (data e) "dx" (PInt 0) ;; py_int int_of_str v) ;;
    dy <~ pure (v <- py_get (data e) "dy" (PInt 0) ;; py_int int_of_str v) ;;
    controller (MouseScroll dx dy)
  else if kind_is e "kpress" then
    k <~ pure (v <- py_getitem (data e) "key" ;; str_to_key_val v) ;;
    match k with
    | Some key => controller (KbdPress key)
    | None => pure (ret tt)
    end
  else if kind_is e "krelease" then
    k <~ pure (v <- py_getitem (data e) "key" ;; str_to_key_val v) ;;
    match k with
    | Some key => controller (KbdRelease key)
    | None => pure (ret tt)
    end
  else pure (ret tt).

(** [try: ... except Exception as ex: on_status(f"Playback error: {ex}")] *)
Definition attempt (jitter_px : Z) (e : Event) (w : World) : World :=
  match emit jitter_px e w with
  | (w1, inr _) => w1
  | (w1, inl ex) => output (StatusPlaybackError ex) w1
  end.

(** [for e, wait in zip(macro.events, waits): ...], for the turns whose
    wait returns ([wait_returns]). The wait stands outside the [try]
    block: with a timeout above [TIMEOUT_MAX] it raises [OverflowError]
    and the run ends there, with [_playing] left true, which this loop
    does not describe. *)
Fixpoint play_loop (jitter_px : Z) (l : list (Event * Q)) (p : Player) (w : World)
  : Player * World :=
  match l with
  | [] => (p, w)
  | (e, wait) :: l' =>
      let '(set1, p1, w1) := is_set p w in
      if set1 then (p1, w1)
      else
        (* Wait without spinning CPU *)
        let w2 := output (Wait wait) w1 in
        let '(set2, p2, w3) := is_set p1 w2 in
        if set2 then (p2, w3)
        else play_loop jitter_px l' p2 (attempt jitter_px e w3)
  end.

Definition play (p : Player) (macro : Macro) (speed : Q) (jitter_px : Z) (w : World)
  : Player * World :=
  match events macro with
  | [] => (p, output (Status "Nothing to play.") w)
  | _ :: _ =>
      let p1 := {| _stop_evt := false; _playing := true |} in
      let w1 := output (Status "Playing... (ESC to stop)") w in
      let waits := compute_waits (events macro) speed in
      let '(p2, w2) := play_loop jitter_px (combine (events macro) waits) p1 w1 in
      ({| _stop_evt := _stop_evt p2; _playing := false |},
       output (Status "Playback finished.") w2)
  end.

End Host.

End Player.

(* ================================================================== *)
(** * ui.py and main.py: the control surface, as far as it drives the
      engine (file operations, recording, the keys it reserves) *)

(** A file of the host: its JSON text, held as the value [json.load]
    reads from it and [json.dump] wrote to it, or text that is not
    JSON. *)
Inductive content : Type :=
| Json (v : pyval)
| Malformed.

Definition files : Type := list (string * content).

Fixpoint read_file (path : string) (fs : files) : option content :=
  match fs with
  | [] => None
  | (p, c) :: fs' => if String.eqb path p then Some c else read_file path fs'
  end.

(** [with open(path, "r") as f: payload = json.load(f)] *)
Definition json_load (path : string) (fs : files) : result pyval :=
  match read_file path fs with
  | None => raise (OSError "No such file or directory")
  | Some Malformed => raise ValueError
  | Some (Json v) => ret v
  end.

(** [with open(path, "w") as f: json.dump(payload, f, indent=2)]; the
    file is taken to be writable. *)
Definition json_dump (payload : pyval) (path : string) (fs : files) : files :=
  (path, Json payload) :: fs.

(** [os.path.basename(path)]: what follows the last slash. *)
Fixpoint basename_from (acc : string) (path : string) : string :=
  match path with
  | EmptyString => acc
  | String c rest =>
      if Ascii.eqb c "/"%char then basename_from rest rest
      else basename_from acc rest
  end.

Definition basename (path : string) : string := basename_from path path.

(** [dataclasses.asdict(e)] *)
Definition asdict (e : Event) : pyval :=
  PDict [("t", PFloat (t e)); ("kind", kind e); ("data", data e)].

(** [[f(e) for e in l]], where [f] may raise. *)
Fixpoint comprehension {A B} (f : A -> result B) (l : list A) : result (list B) :=
  match l with
  | [] => ret []
  | a :: l' =>
      b <- f a ;;
      bs <- comprehension f l' ;;
      ret (b :: bs)
  end.

Module App.

(** The F-keys bound by the interface, [AppUI.keys]. *)
Record Keys : Type := mkKeys {
  key_record : string;
  key_play : string;
  key_save : string;
  key_open : string
}.

Definition DEFAULT_KEYS : Keys :=
  {| key_record := "F3"; key_play := "F7"; key_save := "F4"; key_open := "F6" |}.

(** The messages of the interface and of [main.py]. *)
Inductive Message : Type :=
| Text (msg : string)
| Saved (n : nat) (filename : string)     (* f"Saved {n} events -> {filename}" *)
| Loaded (n : nat) (filename : string)    (* f"Loaded {n} event(s) <- {filename}" *)
| Recorded (n : nat).                     (* f"Recorded {n} events." *)

(** The globals of [main.py] together with the fields of [AppUI] that
    the file operations use. *)
Record State : Type := mkState {
  rec : Recorder.Recorder;
  player : Player.Player;
  macro_ref : Macro;
  keys : Keys;
  current_filename : string;
  _ignore_until : Q;
  status : list Message
}.

Definition initial (k : Keys) : State :=
  {| rec := Recorder.__init__ (1 # 100);
     player := Player.__init__;
     macro_ref := mkMacro [];
     keys := k;
     current_filename := "Ready";
     _ignore_until := 0%Q;
     status := [] |}.

Definition set_status (m : Message) (s : State) : State :=
  {| rec := rec s;
     player := player s;
     macro_ref := macro_ref s;
     keys := keys s;
     current_filename := current_filename s;
     _ignore_until := _ignore_until s;
     status := status s ++ [m] |}.

Definition get_macro (s : State) : Macro := macro_ref s.

Definition set_macro (m : Macro) (s : State) : State :=
  {| rec := rec s;
     player := player s;
     macro_ref := m;
     keys := keys s;
     current_filename := current_filename s;
     _ignore_until := _ignore_until s;
     status := status s |}.

Definition set_current_filename (name : string) (s : State) : State :=
  {| rec := rec s;
     player := player s;
     macro_ref := macro_ref s;
     keys := keys s;
     current_filename := name;
     _ignore_until := _ignore_until s;
     status := status s |}.

Definition set_rec (r : Recorder.Recorder) (s : State) : State :=
  {| rec := r;
     player := player s;
     macro_ref := macro_ref s;
     keys := keys s;
     current_filename := current_filename s;
     _ignore_until := _ignore_until s;
     status := status s |}.

(** ** File ops ([AppUI._save], [AppUI._load]) *)

(** [path] is what the file dialog returned, empty when it was
    cancelled. *)
Definition _save (s : State) (path : string) (fs : files) : State * files :=
  let macro := get_macro s in
  match events macro with
  | [] => (set_status (Text "Nothing to save.") s, fs)
  | _ :: _ =>
      if String.eqb path "" then (s, fs)
      else
        let payload := PDict [("version", PInt 1);
                              ("events", PList (map asdict (events macro)))] in
        let fs1 := json_dump payload path fs in
        let s1 := set_current_filename (basename path) s in
        (set_status (Saved (List.length (events macro)) (current_filename s1)) s1, fs1)
  end.

Section Load.

Variable float_of_str : string -> option Q.

(** [Event(t=float(e["t"]), kind=e["kind"], data=e["data"])] *)
Definition event_of (e : pyval) : result Event :=
  tv <- py_getitem e "t" ;;
  tm <- py_float float_of_str tv ;;
  k <- py_getitem e "kind" ;;
  d <- py_getitem e "data" ;;
  ret (mkEvent tm k d).

(** [[Event(...) for e in payload.get("events", [])]] *)
Definition events_of (payload : pyval) : result (list Event) :=
  evs <- py_get payload "events" (PList []) ;;
  items <- py_iter evs ;;
  comprehension event_of items.

(** The state the call ends in, and the exception it ends with, if any. *)
Definition _load (s : State) (path : string) (fs : files) : State * option exn :=
  if String.eqb path "" then (s, None)
  else
    match json_load path fs with
    | inl ex => (s, Some ex)
    | inr payload =>
        match events_of payload with
        | inl ex => (s, Some ex)
        | inr evs =>
            let s1 := set_macro (mkMacro evs) s in
            let s2 := set_current_filename (basename path) s1 in
            (set_status (Loaded (List.length evs) (current_filename s2)) s2, None)
        end
    end.

End Load.

(** ** Control-key filtering ([main.py]) *)

(** Map "F1".."F19" to pynput Key objects *)
Definition _FKEY_TO_PYNPUT : list (string * Key) :=
  map (fun i => ("F" ++ str_of_nat i, KeyEnum ("f" ++ str_of_nat i))) (seq 1 19).

Fixpoint fkey_get (label : string) (table : list (string * Key)) : option Key :=
  match table with
  | [] => None
  | (l, k) :: table' => if String.eqb label l then Some k else fkey_get label table'
  end.

Definition unset (o : option Key) : list Key :=
  match o with
  | Some k => [k]
  | None => []
  end.

(** The set of pynput Key objects for the UI's current F-key bindings;
    the labels being strings, the lookups do not raise. *)
Definition get_control_keys (s : State) : list Key :=
  unset (fkey_get (key_record (keys s)) _FKEY_TO_PYNPUT) ++
  unset (fkey_get (key_play (keys s)) _FKEY_TO_PYNPUT) ++
  unset (fkey_get (key_save (keys s)) _FKEY_TO_PYNPUT) ++
  unset (fkey_get (key_open (keys s)) _FKEY_TO_PYNPUT).

(** [should_ignore_key(k)], [now] being the reading of [time.time()]. *)
Definition should_ignore_key (s : State) (now : Q) (k : Key) : bool :=
  if Qlt_bool now (_ignore_until s) then true
  else Key_in k (get_control_keys s).

Definition squelch (now : Q) (ms : Z) (s : State) : State :=
  {| rec := rec s;
     player := player s;
     macro_ref := macro_ref s;
     keys := keys s;
     current_filename := current_filename s;
     _ignore_until := (now + inject_Z ms / 1000)%Q;
     status := status s |}.

(** The names [hasattr] finds on a [Recorder]: what [__init__] assigns
    and what the class defines, and [ignore_keys] once it was assigned. *)
Definition Recorder_attributes : list string :=
  ["clock"; "move_min_interval"; "_last_move_t"; "_last_pos"; "_recording";
   "macro"; "_m_listener"; "_k_listener"; "IGNORE_KEYS";
   "__init__"; "start"; "stop"; "recording"; "attach"; "_now";
   "_on_move"; "_on_click"; "_on_scroll"; "_on_key_press"; "_on_key_release"].

Definition hasattr (r : Recorder.Recorder) (name : string) : bool :=
  existsb (String.eqb name) Recorder_attributes
  || (String.eqb name "ignore_keys"
      && match Recorder.ignore_keys r with Some _ => true | None => false end).

Definition set_ignore_keys (ks : list Key) (r : Recorder.Recorder) : Recorder.Recorder :=
  {| Recorder.clock := Recorder.clock r;
     Recorder.move_min_interval := Recorder.move_min_interval r;
     Recorder._last_move_t := Recorder._last_move_t r;
     Recorder._last_pos := Recorder._last_pos r;
     Recorder._recording := Recorder._recording r;
     Recorder.macro := Recorder.macro r;
     Recorder.IGNORE_KEYS := Recorder.IGNORE_KEYS r;
     Recorder.ignore_keys := Some ks |}.

Section Callbacks.

Variable perf_counter : nat -> Q.

(** [start_rec()]; [now] is the reading of [time.time()], [n] the number
    of readings of [time.perf_counter()] made so far. *)
Definition start_rec (s : State) (now : Q) (n : nat) : State * nat :=
  let s1 := squelch now 180 s in
  if Player._playing (player s1)
  then (set_status (Text "Can't record during playback.") s1, n)
  else
    (* Best-effort: hand our ignore info to Recorder if it supports it *)
    let r1 := if hasattr (rec s1) "ignore_keys"
              then set_ignore_keys (get_control_keys s1) (rec s1)
              else rec s1 in
    (* [if hasattr(rec, "set_key_filter"): ...] does nothing: no recorder
       has that name, see [hasattr_set_key_filter] *)
    let '(r2, n1) := Recorder.start perf_counter r1 n in
    (set_status (Text "Recording... (F8 to stop)") (set_rec r2 s1), n1).

Definition stop_rec (s : State) (now : Q) : State :=
  let s1 := squelch now 180 s in
  let s2 := set_rec (Recorder.stop (rec s1)) s1 in
  (* refresh reference *)
  let s3 := set_macro (Recorder.macro (rec s2)) s2 in
  set_status (Recorded (List.length (events (macro_ref s3)))) s3.

(** A key press or release delivered to the recorder's keyboard
    listener. *)
Definition key_event (s : State) (n : nat) (pressed : bool) (k : Key) : State * nat :=
  let '(r, n1) := if pressed then Recorder._on_key_press perf_counter (rec s) n k
                  else Recorder._on_key_release perf_counter (rec s) n k in
  (set_rec r s, n1).

End Callbacks.

Definition set_player (p : Player.Player) (s : State) : State :=
  {| rec := rec s;
     player := p;
     macro_ref := macro_ref s;
     keys := keys s;
     current_filename := current_filename s;
     _ignore_until := _ignore_until s;
     status := status s |}.

Section Playing.

Variable int_of_str : string -> option Z.
Variable Key_names : list string.
Variable stop_called : nat -> bool.
Variable randint : nat -> Z -> Z -> Z.
Variable controller_raises : nat -> option string.

(** The body of the thread [run] of [play], [k] turns of
    [for _ in range(loops)] being left and [index] being the value of
    [_]. The messages of the player go to the output of the world, which
    stands for the [on_status] it is given. *)
Fixpoint run_loops (k : nat) (index : nat) (s : State) (speed : Q) (jitter : Z)
  (w : World) : State * World :=
  match k with
  | O => (s, w)
  | S k' =>
      if negb (Player._playing (player s)) && (0 <? index)%nat then (s, w)
      else
        let '(p1, w1) :=
          Player.play int_of_str Key_names stop_called randint controller_raises
            (player s) (macro_ref s) speed jitter w in
        let '(set, p2, w2) := Player.is_set stop_called p1 w1 in
        if set then (set_player p2 s, w2)
        else run_loops k' (S index) (set_player p2 s) speed jitter w2
  end.

(** [play(speed, loops, jitter)]; the thread it starts is run to its end
    at once. *)
Definition play (s : State) (now : Q) (speed : Q) (loops : Z) (jitter : Z)
  (w : World) : State * World :=
  let s1 := squelch now 180 s in
  if Recorder._recording (rec s1)
  then (set_status (Text "Stop recording first.") s1, w)
  else if Player._playing (player s1)
  then (set_status (Text "Already playing.") s1, w)
  else run_loops (Z.to_nat loops) 0 s1 speed jitter w.

End Playing.

Definition stop_play (s : State) (now : Q) : State :=
  let s1 := squelch now 180 s in
  set_status (Text "Stopping playback...") (set_player (Player.stop (player s1)) s1).

End App.

(* ================================================================== *)
(** * ui.py: favorite macros *)

(** [d[k] = v]: the value of a key the dict has is replaced where it
    stands, a new key comes last. *)
Fixpoint dict_set (k : string) (v : pyval) (d : list (string * pyval))
  : list (string * pyval) :=
  match d with
  | [] => [(k, v)]
  | (k', v') :: d' =>
      if String.eqb k k' then (k, v) :: d' else (k', v') :: dict_set k v d'
  end.

(** [d.pop(k, None)]. *)
Fixpoint dict_pop (k : string) (d : list (string * pyval)) : list (string * pyval) :=
  match d with
  | [] => []
  | (k', v') :: d' =>
      if String.eqb k k' then dict_pop k d' else (k', v') :: dict_pop k d'
  end.

(** The three bytes of the character U+2026, with which a message
    ends. *)
Definition ellipsis : string :=
  String (ascii_of_nat 226) (String (ascii_of_nat 128) (String (ascii_of_nat 166) "")).

Module AppUI.

(** The fields of [AppUI] behind the favorites, beside the state they
    share with [main.py]. [favorites] is what [favorites.json] held at
    the start, any JSON value. *)
Record UI : Type := mkUI {
  app : App.State;
  favorites : pyval;
  speed_var : string;
  loops_var : string;
  jitter_var : string;
  speed : Q;
  loops : Z;
  jitter : Z;
  infos : list string          (* messagebox.showinfo *)
}.

Definition set_app (a : App.State) (u : UI) : UI :=
  {| app := a;
     favorites := favorites u;
     speed_var := speed_var u;
     loops_var := loops_var u;
     jitter_var := jitter_var u;
     speed := speed u;
     loops := loops u;
     jitter := jitter u;
     infos := infos u |}.

Definition set_favorites (f : pyval) (u : UI) : UI :=
  {| app := app u;
     favorites := f;
     speed_var := speed_var u;
     loops_var := loops_var u;
     jitter_var := jitter_var u;
     speed := speed u;
     loops := loops u;
     jitter := jitter u;
     infos := infos u |}.

Definition showinfo (msg : string) (u : UI) : UI :=
  {| app := app u;
     favorites := favorites u;
     speed_var := speed_var u;
     loops_var := loops_var u;
     jitter_var := jitter_var u;
     speed := speed u;
     loops := loops u;
     jitter := jitter u;
     infos := infos u ++ [msg] |}.

(** [_load_json(path, default)] *)
Definition _load_json (path : string) (default : pyval) (fs : files) : pyval :=
  match json_load path fs with
  | inr v => v
  | inl _ => default
  end.

(** [_save_json(path, data)] *)
Definition _save_json (path : string) (data : pyval) (fs : files) : files :=
  json_dump data path fs.

(** [favorites[name] = value] *)
Definition setitem (f : pyval) (name : string) (value : pyval) : result pyval :=
  match f with
  | PDict d => ret (PDict (dict_set name value d))
  | _ => raise TypeError
  end.

(** [favorites.pop(name, None)]: a list has a [pop] that takes no such
    arguments, the other values have none. *)
Definition pop (f : pyval) (name : string) : result pyval :=
  match f with
  | PDict d => ret (PDict (dict_pop name d))
  | PList _ => raise TypeError
  | _ => raise AttributeError
  end.

Section Favorites.

(** The file [~/.minitinytask/favorites.json]. *)
Variable FAVES : string.

Variable float_of_str : string -> option Q.
Variable int_of_str : string -> option Z.
Variable Key_names : list string.
Variable stop_called : nat -> bool.
Variable randint : nat -> Z -> Z -> Z.
Variable controller_raises : nat -> option string.

Definition _ensure_numeric_defaults (u : UI) : UI :=
  {| app := app u;
     favorites := favorites u;
     speed_var := speed_var u;
     loops_var := loops_var u;
     jitter_var := jitter_var u;
     speed := match float_of_str (speed_var u) with Some q => q | None => 1%Q end;
     loops := match int_of_str (loops_var u) with Some z => z | None => 1 end;
     jitter := match int_of_str (jitter_var u) with Some z => z | None => 0 end;
     infos := infos u |}.

(** [_add_favorite]; [name] is the answer to the dialog, empty when it
    was cancelled. *)
Definition _add_favorite (u : UI) (name : string) (fs : files)
  : UI * files * option exn :=
  let macro := App.get_macro (app u) in
  match events macro with
  | [] => (showinfo "No macro to save. Record one first." u, fs, None)
  | _ :: _ =>
      if String.eqb name "" then (u, fs, None)
      else
        match setitem (favorites u) name
                (PDict [("version", PInt 1);
                        ("events", PList (map asdict (events macro)))]) with
        | inl ex => (u, fs, Some ex)
        | inr f =>
            let u1 := set_favorites f u in
            let fs1 := _save_json FAVES (favorites u1) fs in
            (set_app (App.set_status
                        (App.Text ("Saved favorite '" ++ name ++ "'.")) (app u1)) u1,
             fs1, None)
        end
  end.

(** [play_sel]; [selection] is the name selected in the list, if one
    is; [now] is the reading of [time.time()]. *)
Definition play_sel (u : UI) (selection : option string) (now : Q) (w : World)
  : UI * World * option exn :=
  match selection with
  | None => (u, w, None)
  | Some name =>
      match py_get (favorites u) name PNone with
      | inl ex => (u, w, Some ex)
      | inr fav =>
          if negb (py_bool fav) then (u, w, None)
          else
            match App.events_of float_of_str fav with
            | inl ex => (u, w, Some ex)
            | inr evs =>
                let a1 := App.set_macro (mkMacro evs) (app u) in
                let a2 := App.set_status
                            (App.Text ("Loaded favorite '" ++ name ++ "'. Playing"
                                       ++ ellipsis)) a1 in
                let u1 := _ensure_numeric_defaults (set_app a2 u) in
                let '(a3, w1) :=
                  App.play int_of_str Key_names stop_called randint controller_raises
                    (app u1) now (speed u1) (loops u1) (jitter u1) w in
                (set_app a3 u1, w1, None)
            end
      end
  end.

(** [delete_sel]; [confirmed] is the answer to the question. *)
Definition delete_sel (u : UI) (selection : option string) (confirmed : bool)
  (fs : files) : UI * files * option exn :=
  match selection with
  | None => (u, fs, None)
  | Some name =>
      if confirmed then
        match pop (favorites u) name with
        | inl ex => (u, fs, Some ex)
        | inr f =>
            let u1 := set_favorites f u in
            (u1, _save_json FAVES (favorites u1) fs, None)
        end
      else (u, fs, None)
  end.

End Favorites.

End AppUI.

(* ================================================================== *)
(** * Predicates used in the statements *)


(** The move events of a macro, the position of one, and the last of
    them. *)
Definition moves (evs : list Event) : list Event :=
  filter (fun e => kind_is e "move") evs.

Definition move_pos (e : Event) : option (Z * Z) :=
  match data e with
  | PDict [("x", PInt x); ("y", PInt y)] => Some (x, y)
  | _ => None
  end.

Definition last_move (evs : list Event) : option Event :=
  List.last (map Some (moves evs)) None.

(** The time of the last recorded move, the start of the recording when
    there is none yet; and its position. *)
Definition last_move_time (evs : list Event) : Q :=
  match last_move evs with
  | Some e => t e
  | None => 0%Q
  end.

Definition last_move_pos (evs : list Event) : option (Z * Z) :=
  match last_move evs with
  | Some e => move_pos e
  | None => None
  end.

(** The number a field of a payload holds. *)
Definition number (v : pyval) : option Q :=
  match v with
  | PInt z => Some (inject_Z z)
  | PFloat q => Some q
  | _ => None
  end.

(** The place of a move event, its coordinates read as numbers; and the
    place of the last move. *)
Definition move_place (e : Event) : option (Q * Q) :=
  match data e with
  | PDict [("x", vx); ("y", vy)] =>
      match number vx, number vy with
      | Some x, Some y => Some (x, y)
      | _, _ => None
      end
  | _ => None
  end.

Definition last_move_place (evs : list Event) : option (Q * Q) :=
  match last_move evs with
  | Some e => move_place e
  | None => None
  end.

(** Two places are the same when their coordinates are the same
    numbers. *)
Definition same_place (a b : option (Q * Q)) : Prop :=
  match a, b with
  | Some p, Some q => (fst p == fst q)%Q /\ (snd p == snd q)%Q
  | None, None => True
  | _, _ => False
  end.


(** Adjacent recorded moves are [interval] apart or more, and at
    different positions. *)
Definition throttled (interval : Q) (ms : list Event) : Prop :=
  forall i m1 m2,
    nth_error ms i = Some m1 -> nth_error ms (S i) = Some m2 ->
    (interval <= t m2 - t m1)%Q /\ ~ same_place (move_place m1) (move_place m2).


Definition values (p : Coord * Coord) : Q * Q :=
  (Coord_value (fst p), Coord_value (snd p)).



Definition move_event (tm : Q) (x y : Z) : Event :=
  mkEvent tm (PStr "move") (PDict [("x", PInt x); ("y", PInt y)]).

Definition is_wait (o : Output) : bool :=
  match o with
  | Wait _ => true
  | _ => false
  end.

(** The world in which the [try] block of a turn starts, when the stop
    signal was clear at both reads: two reads and the wait have been
    made. *)
Definition after_wait (wait : Q) (w : World) : World :=
  {| stop_reads := S (S (stop_reads w));
     rand_calls := rand_calls w;
     ctl_calls := ctl_calls w;
     out := out w ++ [Wait wait] |}.

(** A click event as the recorder writes it, with any button name. *)
Definition click_event (tm : Q) (x y : Z) (button : string) (pressed : bool) : Event :=
  mkEvent tm (PStr "click")
    (PDict [("x", PInt x); ("y", PInt y); ("button", PStr button);
            ("pressed", PBool pressed)]).

(** The waits as the specification words them: the wait before an
    event is [max(0, (event.t - previous.t) / speed)], a speed of zero or
    less being treated as 1.0 before the division. *)
Fixpoint spec_waits_from (prev : Q) (evs : list Event) (speed : Q) : list Q :=
  match evs with
  | [] => []
  | e :: evs' => Qmax 0 ((t e - prev) / speed) :: spec_waits_from (t e) evs' speed
  end.

Definition spec_waits (evs : list Event) (speed : Q) : list Q :=
  spec_waits_from 0 evs (if Qle_bool speed 0 then 1%Q else speed).

(** The time of the event before the one at index [i], 0 for the first. *)
Definition prev_time (evs : list Event) (i : nat) : Q :=
  match i with
  | O => 0%Q
  | S j => match nth_error evs j with
           | Some e => t e
           | None => 0%Q
           end
  end.

(** An event of the given time; its kind and payload do not matter to
    the waits. *)
Definition at_time (tm : Q) : Event := mkEvent tm (PStr "move") (PDict []).

(** A key event as the recorder writes it. *)
Definition key_event_of (kind : string) (tm : Q) (k : Key) : Event :=
  mkEvent tm (PStr kind) (PDict [("key", PStr (Utils.key_to_str k))]).

(** The document [_save] writes for a list of events. *)
Definition document (evs : list Event) : pyval :=
  PDict [("version", PInt 1); ("events", PList (map asdict evs))].

(** A clock for examples: one second per reading, starting at 100. *)
Definition tick_clock (n : nat) : Q := inject_Z (100 + Z.of_nat n).

(* ================================================================== *)
(** * Invariants of the recorder *)





(* ================================================================== *)
(** * Vocabulary of the playback statements *)

(** The state in which the turn of event [i] begins (or in which the
    loop has ended, if it ended before). *)
Definition at_turn (int_of_str : string -> option Z) (Key_names : list string)
  (stop_called : nat -> bool) (randint : nat -> Z -> Z -> Z)
  (controller_raises : nat -> option string)
  (i : nat) (macro : Macro) (speed : Q) (jitter_px : Z) (w : World)
  : Player.Player * World :=
  Player.play_loop int_of_str Key_names stop_called randint controller_raises jitter_px
    (firstn i (combine (events macro) (compute_waits (events macro) speed)))
    {| Player._stop_evt := false; Player._playing := true |}
    (output (Status "Playing... (ESC to stop)") w).

(** What a piece of the [try] block adds to the output is calls on the
    controllers only. *)
Definition emits_only {A} (m : Play A) : Prop :=
  forall w, exists l,
    out (fst (m w)) = (out w ++ l)%list /\ forallb is_emission l = true.

(** The reports of a failed event among the outputs. *)
Definition is_error_report (o : Output) : bool :=
  match o with
  | StatusPlaybackError _ => true
  | _ => false
  end.

(* ================================================================== *)
(** * Concrete runs *)

(** Calls on a recorder: a move before the recording starts, two moves to
    the same place, a click, a reserved key, a character, and a move
    after the recording stopped. *)
Definition demo_inputs : list Input :=
  [Move 1 1; Start; Move 1 1; Move 1 1; Click 1 1 Button_left true;
   KeyPress (KeyEnum "f8"); KeyPress (KeyCode_char "a"); Stop; Move 5 5].

(** The single-file script refreshes [_last_move_time] before it compares
    positions. Readings of the clock: recording starts at 100 s, and
    three move callbacks arrive 20 ms, 40 ms and 45 ms later. *)
Definition throttle_clock (n : nat) : Q :=
  nth n [100; 100 + 20 / 1000; 100 + 40 / 1000; 100 + 45 / 1000]%Q 200%Q.

Definition script_before_third_move : MacOSTinyTask.Globals * nat :=
  let '(g0, n0) := MacOSTinyTask.start_recording throttle_clock MacOSTinyTask.initial 0 in
  let '(g1, n1) := MacOSTinyTask.on_move throttle_clock g0 n0 1 1 in
  MacOSTinyTask.on_move throttle_clock g1 n1 1 1.

(** A host for examples: no key names but a few, a parser that accepts
    nothing, no jitter, controllers that accept every call. *)
Definition demo_keys : list string := ["f1"; "space"; "shift"; "esc"].
Definition no_int (s : string) : option Z := None.
Definition no_float (s : string) : option Q := None.
Definition zero_jitter (n : nat) (a b : Z) : Z := 0.
Definition accepting (n : nat) : option string := None.
Definition never (n : nat) : bool := false.

(** [stop()] is called while the player waits for its second event: the
    reads of the stop event are numbered 0 and 1 in the first turn, 2
    and 3 in the second. *)
Definition during_second_wait (n : nat) : bool := Nat.eqb n 3.

(** The world before a run. *)
Definition world0 : World :=
  {| stop_reads := 0; rand_calls := 0; ctl_calls := 0; out := [] |}.

(** The player inside a run, the stop signal clear. *)
Definition idle_playing : Player.Player :=
  {| Player._stop_evt := false; Player._playing := true |}.

(** A move, then a press and a release of the left button 200 ms later. *)
Definition click_macro : Macro :=
  mkMacro [move_event 0 10 10;
           click_event (2 # 10) 10 10 "left" true;
           click_event (2 # 10) 10 10 "left" false].

(** A key press whose string names no key. *)
Definition foreign_key : Event :=
  mkEvent 0 (PStr "kpress") (PDict [("key", PStr "key:hyper")]).

(** That event, then the character a one second later. *)
Definition foreign_key_macro : Macro :=
  mkMacro [foreign_key; key_event_of "kpress" 1 (KeyCode_char "a")].

(** A move event without coordinates: its turn raises [KeyError]. *)
Definition broken_move : Event := mkEvent 0 (PStr "move") (PDict []).

(** The character f, then the named key F1. *)
Definition f_and_f1_macro : Macro :=
  mkMacro [key_event_of "kpress" 1 (KeyCode_char "f");
           key_event_of "kpress" 2 (KeyEnum "f1")].

(** The application right after its start, holding the macro [m]. *)
Definition state_with (m : Macro) : App.State :=
  App.set_macro m (App.initial App.DEFAULT_KEYS).

(** A document whose only event is of a kind the player does not know. *)
Definition teleport_document : pyval :=
  PDict [("version", PInt 1);
         ("events", PList [PDict [("t", PFloat 0); ("kind", PStr "teleport");
                                  ("data", PDict [])]])].

(** A document whose second event has no "kind". *)
Definition kindless_document : pyval :=
  PDict [("version", PInt 1);
         ("events",
          PList [asdict (move_event 0 10 10);
                 PDict [("t", PFloat 1); ("data", PDict [])]])].

(* ================================================================== *)
(** * Vocabulary of the further statements *)

(** The event the recorder writes for a callback at time [tm], the
    pointer position cut to ints. *)
Definition event_of_input (tm : Q) (i : Input) : option Event :=
  match i with
  | Start | Stop => None
  | Move x y => Some (move_event tm (Coord_int x) (Coord_int y))
  | Click x y b p =>
      Some (click_event tm (Coord_int x) (Coord_int y) (Utils.button_to_str b) p)
  | Scroll x y dx dy =>
      Some (mkEvent tm (PStr "scroll")
              (PDict [("x", PInt (Coord_int x)); ("y", PInt (Coord_int y));
                      ("dx", PInt dx); ("dy", PInt dy)]))
  | KeyPress k => Some (key_event_of "kpress" tm k)
  | KeyRelease k => Some (key_event_of "krelease" tm k)
  end.

(** The calls on the controllers that repeat a callback, the pointer
    set to the recorded position, which is the position of the callback
    cut to ints. *)
Definition calls_of_input (i : Input) : list Output :=
  match i with
  | Start | Stop => []
  | Move x y => [MousePosition (Coord_int x) (Coord_int y)]
  | Click x y b p =>
      [MousePosition (Coord_int x) (Coord_int y);
       if p then MousePress b else MouseRelease b]
  | Scroll x y dx dy => [MouseScroll dx dy]
  | KeyPress k => [KbdPress k]
  | KeyRelease k => [KbdRelease k]
  end.

(** A key that comes back from its string: a character, or a member of
    the enumeration. *)
Definition known_key (Key_names : list string) (k : Key) : Prop :=
  match k with
  | KeyCode_char _ => True
  | KeyEnum name => In name Key_names /\ name <> ""
  | KeyCode_vk _ => False
  end.

(** A callback the player can repeat as it was: one of the three
    buttons, a known key. *)
Definition repeatable (Key_names : list string) (i : Input) : Prop :=
  match i with
  | Start | Stop => False
  | Move _ _ | Scroll _ _ _ _ => True
  | Click _ _ b _ => match b with Button_other _ => False | _ => True end
  | KeyPress k | KeyRelease k => known_key Key_names k
  end.

(** The callbacks that are recorded whenever they arrive while
    recording: clicks, scrolls, and keys outside [IGNORE_KEYS]. *)
Definition unthrottled (ignored : list Key) (i : Input) : Prop :=
  match i with
  | Click _ _ _ _ | Scroll _ _ _ _ => True
  | KeyPress k | KeyRelease k => Key_in k ignored = false
  | _ => False
  end.

Definition is_start (i : Input) : bool :=
  match i with
  | Start => true
  | _ => false
  end.

(** The key string of an event, if it has one. *)
Definition key_string (e : Event) : option string :=
  match data e with
  | PDict [("key", PStr s)] => Some s
  | _ => None
  end.

(** An event of one of the two kinds the pointer position belongs to. *)
Definition positional (e : Event) : bool :=
  kind_is e "move" || kind_is e "click".

(** An event of none of the five kinds. *)
Definition unknown_kind (e : Event) : bool :=
  negb (kind_is e "move" || kind_is e "click" || kind_is e "scroll"
        || kind_is e "kpress" || kind_is e "krelease").

(** The recorder state the script keeps about moves: the position is
    that of the last recorded move, and the time is not before it. *)
Definition script_tracks (g : MacOSTinyTask.Globals) : Prop :=
  let evs := events (MacOSTinyTask.macro g) in
  (last_move_time evs <= MacOSTinyTask._last_move_time g)%Q /\
  same_place (option_map values (MacOSTinyTask._last_move_pos g)) (last_move_place evs) /\
  throttled MacOSTinyTask._MOVE_MIN_INTERVAL (moves evs).

(** An event of a document, with fields a later format might add put
    before the three that are read. *)
Definition event_with_extras (extra : list (string * pyval)) (e : Event) : pyval :=
  PDict (extra ++ [("t", PFloat (t e)); ("kind", kind e); ("data", data e)]).

(** No field of [extra] has one of the names. *)
Definition none_named (names : list string) (extra : list (string * pyval)) : Prop :=
  forall k v, In (k, v) extra -> ~ In k names.

(** What every event of a recorder is: written for some callback, and,
    for a key, one outside the keys the recorder ignores. *)
Definition written (ignored : list Key) (e : Event) : Prop :=
  exists tm i,
    event_of_input tm i = Some e /\
    match i with
    | KeyPress k | KeyRelease k => Key_in k ignored = false
    | _ => True
    end.

Definition all_written (r : Recorder.Recorder) : Prop :=
  Recorder.IGNORE_KEYS r = Recorder.IGNORE_KEYS (Recorder.__init__ 0) /\
  forall e, In e (events (Recorder.macro r)) -> written (Recorder.IGNORE_KEYS r) e.

(** The anchor of the clock is a reading made, and no recorded time is
    negative. *)
Definition grounded (perf_counter : nat -> Q) (s : Recorder.Recorder * nat) : Prop :=
  match Utils._t0 (Recorder.clock (fst s)) with
  | None => events (Recorder.macro (fst s)) = []
  | Some t0 =>
      ~ (t0 == 0)%Q /\
      (forall k, (snd s <= k)%nat -> (t0 <= perf_counter k)%Q) /\
      forall e, In e (events (Recorder.macro (fst s))) -> (0 <= t e)%Q
  end.

(* ================================================================== *)
(** * Further concrete runs *)



(** A press and a release of the left button at (10.5, 20.5), then the
    character a. *)
Definition pixel_session : list Input :=
  [Click (CFloat (21 # 2)) (CFloat (41 # 2)) Button_left true;
   Click (CFloat (21 # 2)) (CFloat (41 # 2)) Button_left false;
   KeyPress (KeyCode_char "a")].

(** A random source that always answers with its lower bound. *)
Definition lowest (n : nat) (a b : Z) : Z := a.

(** A click, a scroll and a press of the character a. *)
Definition session_inputs : list Input :=
  [Click 10 10 Button_left true; Scroll 10 10 0 (-1); KeyPress (KeyCode_char "a")].

(** A fresh recorder after [start()], against [tick_clock]. *)
Definition started : Recorder.Recorder * nat :=
  Recorder.run tick_clock [Start] (Recorder.__init__ (1 # 100), 0%nat).

(** The events written for [session_inputs] at the times 1, 2 and 3. *)
Definition session_events : list Event :=
  [click_event 1 10 10 "left" true;
   mkEvent 2 (PStr "scroll")
     (PDict [("x", PInt 10); ("y", PInt 10); ("dx", PInt 0); ("dy", PInt (-1))]);
   key_event_of "kpress" 3 (KeyCode_char "a")].

(** An event of a kind the player does not know, and a macro of it. *)
Definition teleport : Event := mkEvent 0 (PStr "teleport") (PDict []).
Definition teleport_macro : Macro := mkMacro [teleport].

(** A document of a later format: a field beside "events", and a field
    in each event beside the three that are read. *)
Definition later_fields (e : Event) : list (string * pyval) := [("id", PInt 7)].
Definition later_top : list (string * pyval) := [("version", PInt 2); ("author", PStr "x")].

(** The interface right after its start, holding the macro [m] and the
    favorites [f]. *)
Definition ui_with (m : Macro) (f : pyval) : AppUI.UI :=
  {| AppUI.app := state_with m;
     AppUI.favorites := f;
     AppUI.speed_var := "1.0";
     AppUI.loops_var := "1";
     AppUI.jitter_var := "0";
     AppUI.speed := 1%Q;
     AppUI.loops := 1;
     AppUI.jitter := 0;
     AppUI.infos := [] |}.

(** Every wait of a concrete list returns. *)
Ltac waits_in_range :=
  repeat first [apply Forall_nil | apply Forall_cons; [vm_compute; discriminate |]].

(* ================================================================== *)
(** * The recorder keeps its events in time order *)


Lemma Qlt_bool_false (a b : Q) : Qlt_bool a b = false <-> (b <= a)%Q.
Proof.
  unfold Qlt_bool. rewrite negb_false_iff. apply Qle_bool_iff.
Qed.

Lemma Qeq_bool_false (a b : Q) : ~ (a == b)%Q -> Qeq_bool a b = false.
Proof.
  intro H. destruct (Qeq_bool a b) eqn:E; [| reflexivity].
  apply Qeq_bool_iff in E. contradiction.
Qed.



Section Monotonicity.

Variable perf_counter : nat -> Q.

(** The clock is monotonic, and no reading of it is zero. *)
Hypothesis perf_monotonic : forall n, (perf_counter n <= perf_counter (S n))%Q.
Hypothesis perf_nonzero : forall n, ~ (perf_counter n == 0)%Q.








End Monotonicity.

Lemma tick_clock_monotonic (n : nat) : (tick_clock n <= tick_clock (S n))%Q.
Proof. unfold tick_clock. rewrite <- Zle_Qle. lia. Qed.

Lemma tick_clock_nonzero (n : nat) : ~ (tick_clock n == 0)%Q.
Proof.
  unfold tick_clock. intro H.
  unfold Qeq, inject_Z in H. cbn [Qnum Qden] in H. lia.
Qed.

Example recorder_demo :
  map (fun e => (t e, kind e))
      (events (Recorder.macro (fst
        (Recorder.run tick_clock demo_inputs (Recorder.__init__ (1#100), 0%nat)))))
  = [(101 - 100, PStr "move"); (103 - 100, PStr "click"); (104 - 100, PStr "kpress")]%Q.
Proof. vm_compute. reflexivity. Qed.


(* ================================================================== *)
(** * Move throttling *)

Lemma last_snoc {A} (l : list A) (a d : A) : List.last (l ++ [a]) d = a.
Proof. apply last_last. Qed.

Lemma moves_snoc_move (evs : list Event) (e : Event) :
  kind_is e "move" = true -> moves (evs ++ [e]) = (moves evs ++ [e])%list.
Proof.
  intro H. unfold moves. rewrite filter_app. simpl. rewrite H. reflexivity.
Qed.

Lemma moves_snoc_other (evs : list Event) (e : Event) :
  kind_is e "move" = false -> moves (evs ++ [e]) = moves evs.
Proof.
  intro H. unfold moves. rewrite filter_app. simpl. rewrite H. apply app_nil_r.
Qed.

Lemma last_move_snoc_move (evs : list Event) (e : Event) :
  kind_is e "move" = true -> last_move (evs ++ [e]) = Some e.
Proof.
  intro H. unfold last_move. rewrite (moves_snoc_move _ _ H), map_app. simpl.
  apply last_snoc.
Qed.

Lemma same_place_sym (a b : option (Q * Q)) : same_place a b -> same_place b a.
Proof.
  destruct a as [[a1 a2] |]; destruct b as [[b1 b2] |]; simpl; try tauto.
  intros [H1 H2]. split; symmetry; assumption.
Qed.

Lemma same_place_trans (a b c : option (Q * Q)) :
  same_place a b -> same_place b c -> same_place a c.
Proof.
  destruct a as [[a1 a2] |]; destruct b as [[b1 b2] |]; destruct c as [[c1 c2] |];
    simpl; try tauto.
  intros [H1 H2] [H3 H4]. split; etransitivity; eassumption.
Qed.

Lemma last_pos_is_true (last : option (Coord * Coord)) (p : Coord * Coord) :
  last_pos_is last p = true <-> same_place (option_map values last) (Some (values p)).
Proof.
  destruct last as [q |]; simpl.
  - unfold pos_eqb. rewrite andb_true_iff, !Qeq_bool_iff. reflexivity.
  - split; [discriminate | intros []].
Qed.

Lemma last_pos_is_false (last : option (Coord * Coord)) (p : Coord * Coord) :
  last_pos_is last p = false <-> ~ same_place (option_map values last) (Some (values p)).
Proof.
  rewrite <- last_pos_is_true. destruct (last_pos_is last p); split; intro H.
  - discriminate H.
  - exfalso. apply H. reflexivity.
  - discriminate.
  - reflexivity.
Qed.


(** A relation between adjacent elements holds of a list with one more
    element when it holds of the list, and between its last element and
    the new one. *)
Lemma adjacent_snoc {A} (R : A -> A -> Prop) (ms : list A) (e : A) :
  (forall i m1 m2,
     nth_error ms i = Some m1 -> nth_error ms (S i) = Some m2 -> R m1 m2) ->
  (forall m, List.last (map Some ms) None = Some m -> R m e) ->
  forall i m1 m2,
    nth_error (ms ++ [e]) i = Some m1 -> nth_error (ms ++ [e]) (S i) = Some m2 ->
    R m1 m2.
Proof.
  intros Hs Hb i m1 m2 H1 H2.
  destruct (Nat.lt_ge_cases (S i) (List.length ms)) as [Hlt | Hge].
  - rewrite nth_error_app1 in H1 by lia.
    rewrite nth_error_app1 in H2 by lia.
    exact (Hs i m1 m2 H1 H2).
  - assert (Hi : (i < List.length ms)%nat).
    { destruct (Nat.lt_ge_cases i (List.length ms)) as [L | G]; [exact L |].
      exfalso.
      assert (Hn : nth_error (ms ++ [e]) (S i) = None).
      { apply nth_error_None. rewrite length_app. simpl. lia. }
      congruence. }
    rewrite nth_error_app1 in H1 by exact Hi.
    rewrite nth_error_app2 in H2 by lia.
    replace (S i - List.length ms)%nat with 0%nat in H2 by lia.
    simpl in H2. injection H2 as <-.
    apply Hb.
    assert (Hl : i = (List.length ms - 1)%nat) by lia.
    clear Hs Hb Hge. subst i.
    destruct (exists_last (l := ms)) as [ms' [m Hm]].
    { intros ->. simpl in Hi. lia. }
    subst ms. rewrite map_app. simpl. rewrite last_snoc.
    rewrite length_app in H1. simpl in H1.
    rewrite nth_error_app2 in H1 by lia.
    replace (List.length ms' + 1 - 1 - List.length ms')%nat with 0%nat in H1 by lia.
    simpl in H1. congruence.
Qed.

Lemma throttled_snoc (interval : Q) (ms : list Event) (e : Event) :
  throttled interval ms ->
  (forall m, List.last (map Some ms) None = Some m ->
     (interval <= t e - t m)%Q /\ ~ same_place (move_place m) (move_place e)) ->
  throttled interval (ms ++ [e]).
Proof.
  intros Hs Hb.
  exact (adjacent_snoc
           (fun m1 m2 => (interval <= t m2 - t m1)%Q /\
                         ~ same_place (move_place m1) (move_place m2))
           ms e Hs Hb).
Qed.


Lemma throttled_nil (interval : Q) : throttled interval [].
Proof. intros [| i] m1 m2 H; discriminate H. Qed.


Section Throttle.

Variable perf_counter : nat -> Q.













End Throttle.

(** C4, in [MacOSTinyTask.py]. A move to (1,1) is recorded at 20 ms; a
    second callback at (1,1), 40 ms, is not recorded; the callback at
    (2,2), 45 ms, comes 25 ms after the last recorded move and at another
    position, and is dropped: the events are unchanged. The recorder of
    [recorder.py], given the same calls, records it. *)
Lemma script_on_move_drops_distinct_move :
  let '(g, n) := script_before_third_move in
  let evs := events (MacOSTinyTask.macro g) in
  let tm := fst (MacOSTinyTask._now_rel throttle_clock g n) in
  MacOSTinyTask.recording g = true /\
  (MacOSTinyTask._MOVE_MIN_INTERVAL <= tm - last_move_time evs)%Q /\
  last_move_pos evs <> Some (2, 2) /\
  events (MacOSTinyTask.macro (fst (MacOSTinyTask.on_move throttle_clock g n 2 2))) = evs /\
  map move_pos evs = [Some (1, 1)] /\
  map move_pos
    (events (Recorder.macro (fst
       (Recorder.run throttle_clock [Start; Move 1 1; Move 1 1; Move 2 2]
          (Recorder.__init__ (1 # 100), 0%nat)))))
  = [Some (1, 1); Some (2, 2)].
Proof.
  vm_compute. repeat split; try discriminate; reflexivity.
Qed.

(* ================================================================== *)
(** * Playback *)

Section Playback.

Variable int_of_str : string -> option Z.
Variable Key_names : list string.
Variable stop_called : nat -> bool.
Variable randint : nat -> Z -> Z -> Z.
Variable controller_raises : nat -> option string.

Local Notation "'play_loop'" :=
  (Player.play_loop int_of_str Key_names stop_called randint controller_raises).
Local Notation "'play'" :=
  (Player.play int_of_str Key_names stop_called randint controller_raises).
Local Notation "'attempt'" :=
  (Player.attempt int_of_str Key_names randint controller_raises).
Local Notation "'emit'" :=
  (Player.emit int_of_str Key_names randint controller_raises).

(** C9. Empty-macro fail-fast: [play] on a macro with no events hands
    "Nothing to play." to the status sink and does nothing else: the
    player is as it was (so a flag [_playing] that was false stays false,
    and the stop event is untouched), no controller is called, nothing is
    read from the stop event or the random source. *)
Theorem play_empty_macro :
  forall (p : Player.Player) (speed : Q) (jitter_px : Z) (w : World),
    let '(p', w') := play p (mkMacro []) speed jitter_px w in
    p' = p /\
    out w' = (out w ++ [Status "Nothing to play."])%list /\
    filter is_emission (out w') = filter is_emission (out w) /\
    stop_reads w' = stop_reads w /\
    rand_calls w' = rand_calls w /\
    ctl_calls w' = ctl_calls w.
Proof.
  intros p speed jitter_px w. simpl.
  repeat split. rewrite filter_app. simpl. apply app_nil_r.
Qed.

(** ** Cancellation *)

Lemma play_loop_app (jitter_px : Z) (l1 l2 : list (Event * Q)) :
  forall (p : Player.Player) (w : World),
    Player._stop_evt p = false ->
    play_loop jitter_px (l1 ++ l2) p w =
    let '(p1, w1) := play_loop jitter_px l1 p w in
    if Player._stop_evt p1 then (p1, w1) else play_loop jitter_px l2 p1 w1.
Proof.
  induction l1 as [| [e wait] l1 IH]; intros p w Hp.
  - simpl. rewrite Hp. reflexivity.
  - simpl. rewrite Hp. simpl.
    destruct (stop_called (stop_reads w)) eqn:E1; simpl; [reflexivity |].
    destruct (stop_called (S (stop_reads w))) eqn:E2; simpl; [reflexivity |].
    apply IH. reflexivity.
Qed.

(** Once the stop signal is set by the first or the second read of a
    turn, the loop ends without a call on a controller. *)
Lemma play_loop_cancelled (jitter_px : Z) (e : Event) (wait : Q)
  (rest : list (Event * Q)) (p : Player.Player) (w : World) :
  Player._stop_evt p || stop_called (stop_reads w) || stop_called (S (stop_reads w))
    = true ->
  let '(p', w') := play_loop jitter_px ((e, wait) :: rest) p w in
  Player._stop_evt p' = true /\
  Player._playing p' = Player._playing p /\
  filter is_emission (out w') = filter is_emission (out w).
Proof.
  intro H. simpl.
  destruct (Player._stop_evt p || stop_called (stop_reads w)) eqn:E1; simpl.
  - repeat split.
  - simpl in H. rewrite H. simpl. repeat split.
    rewrite filter_app. simpl. apply app_nil_r.
Qed.

Lemma play_loop_playing (jitter_px : Z) (l : list (Event * Q)) :
  forall (p : Player.Player) (w : World),
    Player._playing (fst (play_loop jitter_px l p w)) = Player._playing p.
Proof.
  induction l as [| [e wait] l IH]; intros p w; simpl; [reflexivity |].
  destruct (Player._stop_evt p || stop_called (stop_reads w)); simpl; [reflexivity |].
  destruct (stop_called (S (stop_reads w))); simpl; [reflexivity |].
  rewrite IH. reflexivity.
Qed.

(** C6. Cancellation: for every macro and every index [i] of one of its
    events, if the stop signal is set when the turn of event [i] reads it
    before the wait, or when it reads it again after the wait, then the
    whole run calls the controllers for no event from [i] on (its calls
    are those made before that turn), and it ends with [_playing] false
    and the stop signal set. *)
Theorem play_cancellation :
  forall (p : Player.Player) (macro : Macro) (speed : Q) (jitter_px : Z)
         (w : World) (i : nat),
    (i < List.length (events macro))%nat ->
    let '(pi, wi) := at_turn int_of_str Key_names stop_called randint controller_raises
                        i macro speed jitter_px w in
    Player._stop_evt pi
      || stop_called (stop_reads wi) || stop_called (S (stop_reads wi)) = true ->
    let '(p', w') := play p macro speed jitter_px w in
    Player._playing p' = false /\
    Player._stop_evt p' = true /\
    filter is_emission (out w') = filter is_emission (out wi).
Proof.
  intros p macro speed jitter_px w i Hi.
  unfold at_turn, Player.play.
  destruct (events macro) as [| e0 evs] eqn:Ee; [simpl in Hi; lia |].
  set (l := combine (e0 :: evs) (compute_waits (e0 :: evs) speed)).
  set (p0 := {| Player._stop_evt := false; Player._playing := true |}).
  set (w0 := output (Status "Playing... (ESC to stop)") w).
  assert (Hl : (i < List.length l)%nat).
  { unfold l. rewrite length_combine.
    assert (Hw : forall evs0 prev, List.length (waits_from prev evs0 speed)
                                   = List.length evs0).
    { induction evs0 as [| a evs0 IH]; intro prev; simpl; [reflexivity |].
      rewrite IH. reflexivity. }
    unfold compute_waits. rewrite Hw. lia. }
  assert (Hsplit : play_loop jitter_px l p0 w0
                   = play_loop jitter_px (firstn i l ++ skipn i l) p0 w0).
  { rewrite firstn_skipn. reflexivity. }
  rewrite Hsplit, play_loop_app by reflexivity. clear Hsplit.
  destruct (play_loop jitter_px (firstn i l) p0 w0) as [pi wi] eqn:E.
  intro Hstop.
  destruct (Player._stop_evt pi) eqn:Ef.
  - simpl. repeat split; [exact Ef |]. rewrite filter_app. simpl. apply app_nil_r.
  - destruct (skipn i l) as [| [e wait] rest] eqn:Es.
    { exfalso.
      assert (H0 : List.length (skipn i l) = 0%nat) by (rewrite Es; reflexivity).
      rewrite length_skipn in H0. lia. }
    assert (Hc := play_loop_cancelled jitter_px e wait rest pi wi).
    rewrite Ef in Hc. specialize (Hc Hstop).
    destruct (play_loop jitter_px ((e, wait) :: rest) pi wi) as [p' w'].
    destruct Hc as [Hs [_ Hf]]. simpl. repeat split; [exact Hs |].
    rewrite filter_app. simpl. rewrite app_nil_r. exact Hf.
Qed.

(** ** Buttons *)

Lemma str_to_button_default (name : string) :
  name <> "left" -> name <> "right" -> name <> "middle" ->
  Utils.str_to_button (PStr name) = ret Button_left.
Proof.
  intros Hl Hr Hm. unfold Utils.str_to_button.
  apply String.eqb_neq in Hl, Hr, Hm. rewrite Hl, Hr, Hm. reflexivity.
Qed.

(** C10. Button decoding is total and defaults to the left button: for
    every string other than "left", "right" and "middle",
    [str_to_button] returns the left button; and the turn of a click
    event that carries such a string as its button raises nothing and
    reports nothing: it sets the pointer position and presses (or
    releases) the left button, provided the controller accepts the two
    calls. *)
Theorem unknown_button_replays_as_left :
  forall (name : string),
    name <> "left" -> name <> "right" -> name <> "middle" ->
    Utils.str_to_button (PStr name) = ret Button_left /\
    forall (jitter_px : Z) (tm : Q) (x y : Z) (pressed : bool) (w : World),
      controller_raises (ctl_calls w) = None ->
      controller_raises (S (ctl_calls w)) = None ->
      exists x' y',
        snd (emit jitter_px (click_event tm x y name pressed) w) = ret tt /\
        out (attempt jitter_px (click_event tm x y name pressed) w)
        = (out w ++ [MousePosition x' y';
                     if pressed then MousePress Button_left
                     else MouseRelease Button_left])%list /\
        (jitter_px <= 0 -> x' = x /\ y' = y).
Proof.
  intros name Hl Hr Hm.
  assert (Hb := str_to_button_default name Hl Hr Hm).
  split; [exact Hb |].
  intros jitter_px tm x y pressed w H0 H1.
  unfold Player.attempt, Player.emit, click_event, kind_is. simpl kind.
  cbn [String.eqb Ascii.eqb Bool.eqb andb].
  unfold bindP at 1, pure at 1. cbn [data py_getitem lookup String.eqb Ascii.eqb Bool.eqb bind ret py_int].
  unfold bindP at 1, pure at 1. cbn [data py_getitem lookup String.eqb Ascii.eqb Bool.eqb bind ret py_int].
  unfold bindP at 1, pure at 1. cbn [data py_getitem lookup String.eqb Ascii.eqb Bool.eqb bind ret].
  rewrite Hb. cbn [ret].
  unfold bindP at 1, pure at 1. cbn [data py_getitem lookup String.eqb Ascii.eqb Bool.eqb bind ret py_bool].
  unfold Player.jittered.
  destruct (0 <? jitter_px) eqn:Ej.
  - exists (x + randint (rand_calls w) (- jitter_px) jitter_px),
           (y + randint (S (rand_calls w)) (- jitter_px) jitter_px).
    unfold bindP, pure, Player.random_randint, Player.controller. simpl.
    rewrite H0. destruct pressed; simpl; rewrite H1; simpl;
      rewrite <- app_assoc; simpl;
      (split; [reflexivity |]; split; [reflexivity |]);
      intro Hj; apply Z.ltb_lt in Ej; lia.
  - exists x, y.
    unfold bindP, pure, Player.controller. simpl.
    rewrite H0. destruct pressed; simpl; rewrite H1; simpl;
      rewrite <- app_assoc; simpl;
      (split; [reflexivity |]; split; [reflexivity |]); intros _; split; reflexivity.
Qed.

(** ** Failures of single events *)

Lemma emits_only_pure {A} (r : result A) : emits_only (pure r).
Proof. intro w. exists []. simpl. rewrite app_nil_r. split; reflexivity. Qed.

Lemma emits_only_bind {A B} (m : Play A) (k : A -> Play B) :
  emits_only m -> (forall a, emits_only (k a)) -> emits_only (bindP m k).
Proof.
  intros Hm Hk w. unfold bindP. destruct (Hm w) as [l1 [E1 F1]].
  destruct (m w) as [w1 [ex | a]]; simpl in *.
  - exists l1. split; assumption.
  - destruct (Hk a w1) as [l2 [E2 F2]]. exists (l1 ++ l2)%list.
    rewrite E2, E1, app_assoc. split; [reflexivity |].
    rewrite forallb_app, F1, F2. reflexivity.
Qed.

Lemma emits_only_randint (a b : Z) : emits_only (Player.random_randint randint a b).
Proof. intro w. exists []. simpl. rewrite app_nil_r. split; reflexivity. Qed.

Lemma emits_only_controller (o : Output) :
  is_emission o = true -> emits_only (Player.controller controller_raises o).
Proof.
  intros Ho w. unfold Player.controller.
  destruct (controller_raises (ctl_calls w)); simpl.
  - exists []. rewrite app_nil_r. split; reflexivity.
  - exists [o]. simpl. rewrite Ho. split; reflexivity.
Qed.

Lemma emits_only_jittered (jitter_px x y : Z) :
  emits_only (Player.jittered randint jitter_px x y).
Proof.
  unfold Player.jittered. destruct (0 <? jitter_px).
  - repeat (apply emits_only_bind; [apply emits_only_randint | intro]).
    apply emits_only_pure.
  - apply emits_only_pure.
Qed.

Lemma emits_only_emit (jitter_px : Z) (e : Event) : emits_only (emit jitter_px e).
Proof.
  unfold Player.emit.
  repeat match goal with
         | |- emits_only (if ?b then _ else _) => destruct b
         | |- emits_only (match ?k with Some _ => _ | None => _ end) => destruct k
         | |- emits_only (bindP _ _) => apply emits_only_bind; [| intro]
         | |- emits_only (pure _) => apply emits_only_pure
         | |- emits_only (Player.jittered _ _ _ _) => apply emits_only_jittered
         | |- emits_only (Player.controller _ _) =>
             apply emits_only_controller; reflexivity
         end.
Qed.

Lemma attempt_waits (jitter_px : Z) (e : Event) (w : World) :
  filter is_wait (out (attempt jitter_px e w)) = filter is_wait (out w).
Proof.
  unfold Player.attempt. destruct (emits_only_emit jitter_px e w) as [l [E F]].
  assert (Hl : filter is_wait l = []).
  { clear E. induction l as [| o l IH]; [reflexivity |].
    simpl in F. apply andb_prop in F. destruct F as [Fo Fl].
    simpl. destruct o; try discriminate Fo; simpl; apply IH; exact Fl. }
  destruct (emit jitter_px e w) as [w1 [ex | u]]; simpl in *.
  - rewrite E, !filter_app, Hl. simpl. rewrite !app_nil_r. reflexivity.
  - rewrite E, filter_app, Hl. apply app_nil_r.
Qed.

Section NoStop.

(** Nobody calls [stop()] during the run. *)
Hypothesis never_stopped : forall n, stop_called n = false.

Lemma play_loop_turn (jitter_px : Z) (e : Event) (wait : Q)
  (rest : list (Event * Q)) (p : Player.Player) (w : World) :
  Player._stop_evt p = false ->
  play_loop jitter_px ((e, wait) :: rest) p w
  = play_loop jitter_px rest p (attempt jitter_px e (after_wait wait w)).
Proof.
  intro Hp. destruct p as [flag playing]. simpl in Hp. subst flag.
  simpl. rewrite !never_stopped. simpl. reflexivity.
Qed.

Lemma play_loop_waits (jitter_px : Z) (l : list (Event * Q)) :
  forall (p : Player.Player) (w : World),
    Player._stop_evt p = false ->
    let '(p', w') := play_loop jitter_px l p w in
    p' = p /\
    filter is_wait (out w') = (filter is_wait (out w) ++ map Wait (map snd l))%list.
Proof.
  induction l as [| [e wait] l IH]; intros p w Hp.
  - simpl. split; [reflexivity | rewrite app_nil_r; reflexivity].
  - rewrite (play_loop_turn _ _ _ _ _ _ Hp).
    specialize (IH p (attempt jitter_px e (after_wait wait w)) Hp).
    destruct (play_loop jitter_px l p _) as [p' w'].
    destruct IH as [-> IH]. split; [reflexivity |].
    rewrite IH, attempt_waits. unfold after_wait. simpl.
    rewrite filter_app. simpl. rewrite <- app_assoc. reflexivity.
Qed.

Lemma waits_from_length (speed : Q) (evs : list Event) :
  forall prev, List.length (waits_from prev evs speed) = List.length evs.
Proof.
  induction evs as [| e evs IH]; intro prev; simpl; [reflexivity |].
  rewrite IH. reflexivity.
Qed.

Lemma combine_waits_snd (speed : Q) (evs : list Event) :
  forall prev,
    map snd (combine evs (waits_from prev evs speed)) = waits_from prev evs speed.
Proof.
  induction evs as [| e evs IH]; intro prev; simpl; [reflexivity |].
  rewrite IH. reflexivity.
Qed.

(** The waits an uninterrupted run makes are the precomputed ones, in
    order. *)
Lemma play_waits_performed (q : Player.Player) (macro : Macro) (speed : Q)
  (jitter_px : Z) (w : World) :
  events macro <> [] ->
  filter is_wait (out (snd (play q macro speed jitter_px w)))
  = (filter is_wait (out w) ++ map Wait (compute_waits (events macro) speed))%list.
Proof.
  intro He. unfold Player.play.
  destruct (events macro) as [| e0 evs]; [congruence |]. clear He.
  set (l := combine (e0 :: evs) (compute_waits (e0 :: evs) speed)).
  set (q0 := {| Player._stop_evt := false; Player._playing := true |}).
  set (w1 := output (Status "Playing... (ESC to stop)") w).
  assert (Hw := play_loop_waits jitter_px l q0 w1 eq_refl).
  destruct (play_loop jitter_px l q0 w1) as [q' w'].
  destruct Hw as [_ Hw]. cbn [snd output out].
  rewrite filter_app, Hw. unfold l, compute_waits. rewrite combine_waits_snd.
  unfold w1. cbn [output out]. rewrite filter_app. simpl. rewrite !app_nil_r.
  reflexivity.
Qed.

(** ** The waits *)

Lemma waits_from_nth (speed : Q) (evs : list Event) :
  forall (prev : Q) (i : nat) (e : Event),
    nth_error evs i = Some e ->
    nth_error (waits_from prev evs speed) i
    = Some (Qmax 0 ((t e - match i with
                            | O => prev
                            | S _ => prev_time evs i
                            end) / Qmax (1 # 1000000) speed)).
Proof.
  induction evs as [| e0 evs IH]; intros prev i e H.
  - destruct i; discriminate H.
  - destruct i as [| j]; simpl in H.
    + injection H as <-. reflexivity.
    + simpl. rewrite (IH (t e0) j e H).
      destruct j as [| k]; [reflexivity |].
      unfold prev_time. simpl. reflexivity.
Qed.

Lemma waits_agree_with_spec (speed : Q) (evs : list Event) :
  (1 # 1000000 <= speed)%Q ->
  forall prev,
    Forall2 Qeq (waits_from prev evs speed) (spec_waits_from prev evs speed).
Proof.
  intros Hs. induction evs as [| e evs IH]; intro prev; simpl.
  - constructor.
  - constructor; [| apply IH].
    rewrite (Q.max_r _ _ Hs). reflexivity.
Qed.

(** C3, as the code has it. An uninterrupted run of [play] whose waits
    all return (none is above [TIMEOUT_MAX]) waits, before the event at
    index [i], for
    [max(0, (events[i].t - events[i-1].t) / max(1e-6, speed))], the time
    before the first event being 0: the speed is not rejected, and what
    is below one millionth (zero and negative speeds with it) is replaced
    by one millionth, not by 1.0. For a speed of one millionth or more
    that is [max(0, (events[i].t - events[i-1].t) / speed)]; events at
    0, 1 and 2 played at speed 2 give the waits 0, 1/2 and 1/2. *)
Theorem play_waits :
  forall (evs : list Event) (speed : Q),
    (forall (q : Player.Player) (jitter_px : Z) (w : World),
       evs <> [] ->
       Forall wait_returns (compute_waits evs speed) ->
       filter is_wait (out (snd (play q (mkMacro evs) speed jitter_px w)))
       = (filter is_wait (out w) ++ map Wait (compute_waits evs speed))%list) /\
    (forall (i : nat) (e : Event),
       nth_error evs i = Some e ->
       nth_error (compute_waits evs speed) i
       = Some (Qmax 0 ((t e - prev_time evs i) / Qmax (1 # 1000000) speed))) /\
    ((1 # 1000000 <= speed)%Q ->
     Forall2 Qeq (compute_waits evs speed) (spec_waits evs speed)) /\
    Forall2 Qeq (compute_waits [at_time 0; at_time 1; at_time 2] 2) [0; 1 # 2; 1 # 2]%Q.
Proof.
  intros evs speed. split; [| split; [| split]].
  - intros q jitter_px w He _. apply (play_waits_performed q (mkMacro evs)). exact He.
  - intros i e H. unfold compute_waits. rewrite (waits_from_nth speed evs 0 i e H).
    destruct i; reflexivity.
  - intro Hs. unfold compute_waits, spec_waits.
    assert (Hp : Qle_bool speed 0 = false).
    { destruct (Qle_bool speed 0) eqn:E; [| reflexivity].
      apply Qle_bool_iff in E. exfalso.
      assert (0 < 1 # 1000000)%Q by reflexivity. lra. }
    rewrite Hp. apply waits_agree_with_spec. exact Hs.
  - repeat constructor.
Qed.

(** C7, as the code has it. With no stop requested, for every event [e]
    of a run whose wait returns (it is not above [TIMEOUT_MAX]), whatever
    its turn does, the loop goes on with the events after it; when the
    [try] block raises, the exception is handed to the status sink after
    what the block had done; when the event is a key press or release
    whose string resolves to no key, its turn calls no controller and
    reports nothing; and a whole run of [play] on a macro with events,
    all of whose waits return, waits once per event, then reports that it
    finished, with [_playing] false. *)
Theorem play_survives_failures :
  forall (jitter_px : Z) (e : Event) (wait : Q) (rest : list (Event * Q))
         (p : Player.Player) (w : World),
    Player._stop_evt p = false ->
    let w0 := after_wait wait w in
    (wait_returns wait ->
     play_loop jitter_px ((e, wait) :: rest) p w
     = play_loop jitter_px rest p (attempt jitter_px e w0)) /\
    (forall w1 ex, emit jitter_px e w0 = (w1, inl ex) ->
       attempt jitter_px e w0 = output (StatusPlaybackError ex) w1) /\
    (forall name,
       kind_is e "kpress" || kind_is e "krelease" = true ->
       py_getitem (data e) "key" = ret (PStr name) ->
       Utils.str_to_key Key_names name = None ->
       attempt jitter_px e w0 = w0) /\
    (forall (macro : Macro) (speed : Q) (q : Player.Player),
       events macro <> [] ->
       Forall wait_returns (compute_waits (events macro) speed) ->
       let '(q', w') := play q macro speed jitter_px w in
       Player._playing q' = false /\
       List.length (filter is_wait (out w'))
       = (List.length (filter is_wait (out w)) + List.length (events macro))%nat /\
       List.last (out w') (Status "") = Status "Playback finished.").
Proof.
  intros jitter_px e wait rest p w Hp w0.
  split; [intros _; apply play_loop_turn; exact Hp |].
  split; [| split].
  - intros w1 ex H. unfold Player.attempt. rewrite H. reflexivity.
  - intros name Hk Hd Hr. unfold Player.attempt, Player.emit.
    assert (Hm : kind_is e "move" = false /\ kind_is e "click" = false /\
                 kind_is e "scroll" = false).
    { unfold kind_is in *. destruct (kind e) as [| | | | s | |];
        try discriminate Hk.
      apply orb_prop in Hk. destruct Hk as [Hk | Hk];
        apply String.eqb_eq in Hk; subst s; repeat split; reflexivity. }
    destruct Hm as [-> [-> ->]].
    assert (Hb : bindP (A := option Key) (B := unit)
                   (pure (v <- py_getitem (data e) "key" ;;
                          Player.str_to_key_val Key_names v))
                   (fun k => match k with
                             | Some key =>
                                 Player.controller controller_raises (KbdPress key)
                             | None => pure (ret tt)
                             end) w0 = (w0, ret tt)).
    { unfold bindP, pure. rewrite Hd. simpl. rewrite Hr. reflexivity. }
    assert (Hb' : bindP (A := option Key) (B := unit)
                   (pure (v <- py_getitem (data e) "key" ;;
                          Player.str_to_key_val Key_names v))
                   (fun k => match k with
                             | Some key =>
                                 Player.controller controller_raises (KbdRelease key)
                             | None => pure (ret tt)
                             end) w0 = (w0, ret tt)).
    { unfold bindP, pure. rewrite Hd. simpl. rewrite Hr. reflexivity. }
    destruct (kind_is e "kpress").
    + rewrite Hb. reflexivity.
    + simpl in Hk. rewrite Hk, Hb'. reflexivity.
  - intros macro speed q He _. unfold Player.play.
    destruct (events macro) as [| e0 evs]; [congruence |]. clear He.
    set (l := combine (e0 :: evs) (compute_waits (e0 :: evs) speed)).
    set (q0 := {| Player._stop_evt := false; Player._playing := true |}).
    set (w1 := output (Status "Playing... (ESC to stop)") w).
    assert (Hl : List.length l = S (List.length evs)).
    { unfold l, compute_waits. rewrite length_combine, waits_from_length.
      simpl. lia. }
    clearbody l.
    assert (Hw := play_loop_waits jitter_px l q0 w1 eq_refl).
    destruct (play_loop jitter_px l q0 w1) as [q' w'].
    destruct Hw as [-> Hw]. simpl. split; [reflexivity |]. split.
    + rewrite filter_app, length_app, Hw, length_app, !length_map, Hl. simpl.
      rewrite filter_app, length_app. simpl. lia.
    + apply last_last.
Qed.

End NoStop.

End Playback.

(** In the single-file script [start_playback] replaces a speed of zero
    or less by 1.0 before [play_once] divides; with that, the waits are
    those of the wording for every speed but the positive ones below one
    millionth. *)
Lemma script_speed_made_safe (evs : list Event) (speed : Q) :
  (speed <= 0)%Q \/ (1 # 1000000 <= speed)%Q ->
  Forall2 Qeq (compute_waits evs (MacOSTinyTask.start_playback_speed speed))
              (spec_waits evs speed).
Proof.
  intro H. unfold MacOSTinyTask.start_playback_speed, spec_waits, compute_waits.
  destruct (Qle_bool speed 0) eqn:E.
  - apply waits_agree_with_spec. vm_compute. discriminate.
  - apply waits_agree_with_spec. destruct H as [H | H]; [| exact H].
    apply Qle_bool_iff in H. congruence.
Qed.

(** C3 does not hold as worded: at speed 0 the code divides by one
    millionth, so the second of two events one second apart is waited
    for a million seconds, where the wording has the speed treated as 1.0
    and the wait as one second. *)
Lemma play_waits_speed_zero :
  (0 <= 0)%Q /\
  Forall2 Qeq (compute_waits [at_time 0; at_time 1] 0) [0; 1000000]%Q /\
  Forall2 Qeq (spec_waits [at_time 0; at_time 1] 0) [0; 1]%Q /\
  ~ Forall2 Qeq (compute_waits [at_time 0; at_time 1] 0)
                (spec_waits [at_time 0; at_time 1] 0).
Proof.
  split; [apply Qle_refl |].
  split; [repeat constructor |].
  split; [repeat constructor |].
  intro H. inversion H as [| a b la lb _ H1]; subst.
  inversion H1 as [| a' b' la' lb' H2 _]; subst.
  vm_compute in H2. discriminate H2.
Qed.

(* ================================================================== *)
(** * Saving and loading *)

Section Serializer.

Variable float_of_str : string -> option Q.

Lemma event_of_asdict (e : Event) : App.event_of float_of_str (asdict e) = ret e.
Proof. destruct e as [tm k d]. reflexivity. Qed.

Lemma comprehension_asdict (evs : list Event) :
  comprehension (App.event_of float_of_str) (map asdict evs) = ret evs.
Proof.
  induction evs as [| e evs IH]; cbn [map comprehension]; [reflexivity |].
  rewrite event_of_asdict. cbn [bind ret]. rewrite IH. reflexivity.
Qed.

Lemma events_of_document (evs : list Event) :
  App.events_of float_of_str (document evs) = ret evs.
Proof.
  unfold App.events_of, document.
  cbn [py_get lookup String.eqb Ascii.eqb Bool.eqb bind ret py_iter].
  apply comprehension_asdict.
Qed.

Lemma json_load_dump (payload : pyval) (path : string) (fs : files) :
  json_load path (json_dump payload path fs) = ret payload.
Proof.
  unfold json_load, json_dump. simpl. rewrite String.eqb_refl. reflexivity.
Qed.

Lemma save_writes_document (s : App.State) (path : string) (fs : files) :
  events (App.macro_ref s) <> [] ->
  path <> "" ->
  snd (App._save s path fs) = json_dump (document (events (App.macro_ref s))) path fs.
Proof.
  intros He Hp. unfold App._save, App.get_macro.
  destruct (events (App.macro_ref s)) as [| e0 evs]; [congruence |].
  apply String.eqb_neq in Hp. rewrite Hp. reflexivity.
Qed.

(** C1. Round trip: whatever the events of the current macro (any
    kinds, any payloads), when [_save] writes a document (the macro has
    events and a path was chosen), the document is
    [{"version": 1, "events": [asdict(e), ...]}], and [_load] on that
    file, from any state, raises nothing and sets a macro equal to the
    saved one. In particular the character key f and the named key F1
    are recorded as "char:f" and "key:f1", two different strings, which
    come back unchanged and decode to the two different keys. *)
Theorem save_load_roundtrip :
  forall (s : App.State) (path : string) (fs : files),
    events (App.macro_ref s) <> [] ->
    path <> "" ->
    let '(s1, fs1) := App._save s path fs in
    json_load path fs1 = ret (document (events (App.macro_ref s))) /\
    (forall (s2 : App.State),
       let '(s3, raised) := App._load float_of_str s2 path fs1 in
       raised = None /\ App.macro_ref s3 = App.macro_ref s) /\
    (forall (tm tm' : Q) (Key_names : list string),
       let e1 := key_event_of "kpress" tm (KeyCode_char "f") in
       let e2 := key_event_of "kpress" tm' (KeyEnum "f1") in
       App.events_of float_of_str (document [e1; e2]) = ret [e1; e2] /\
       data e1 = PDict [("key", PStr "char:f")] /\
       data e2 = PDict [("key", PStr "key:f1")] /\
       data e1 <> data e2 /\
       Utils.str_to_key Key_names "char:f" = Some (KeyCode_char "f") /\
       (In "f1" Key_names ->
        Utils.str_to_key Key_names "key:f1" = Some (KeyEnum "f1"))).
Proof.
  intros s path fs He Hp.
  assert (Hs := save_writes_document s path fs He Hp).
  destruct (App._save s path fs) as [s1 fs1]. simpl in Hs. subst fs1.
  split; [apply json_load_dump |]. split.
  - intro s2. unfold App._load.
    apply String.eqb_neq in Hp. rewrite Hp, json_load_dump.
    unfold ret at 1. cbv iota beta. rewrite events_of_document.
    unfold ret at 1. cbv iota beta.
    split; [reflexivity |]. simpl.
    destruct (App.macro_ref s) as [evs0]. reflexivity.
  - intros tm tm' Key_names e1 e2.
    split; [apply events_of_document |].
    split; [reflexivity |]. split; [reflexivity |]. split; [discriminate |].
    split; [reflexivity |].
    intro Hin.
    assert (Hex : existsb (String.eqb "f1") Key_names = true).
    { apply existsb_exists. exists "f1". split; [exact Hin | apply String.eqb_refl]. }
    unfold Utils.str_to_key, Utils.Key_item.
    change (Utils.startswith "char:" "key:f1") with false.
    change (Utils.startswith "key:" "key:f1") with true.
    change (Utils.drop 4 "key:f1") with "f1".
    cbv iota. rewrite Hex. reflexivity.
Qed.

(** ** Loading a document that is not a macro *)

Lemma comprehension_fails {A B} (f : A -> result B) (l : list A) (a : A) :
  In a l -> (exists ex, f a = inl ex) -> exists ex, comprehension f l = inl ex.
Proof.
  induction l as [| a0 l IH]; intros Hin [ex Hf]; [destruct Hin |].
  simpl. destruct (f a0) as [ex0 | b0] eqn:E0; simpl.
  - exists ex0. reflexivity.
  - destruct Hin as [-> | Hin]; [congruence |].
    destruct (IH Hin (ex_intro _ ex Hf)) as [ex' ->]. exists ex'. reflexivity.
Qed.

Lemma event_of_missing_field (d : list (string * pyval)) :
  lookup "t" d = None \/ lookup "kind" d = None ->
  exists ex, App.event_of float_of_str (PDict d) = inl ex.
Proof.
  intro H. unfold App.event_of. simpl.
  destruct (lookup "t" d) as [tv |] eqn:Et; simpl.
  - destruct H as [H | H]; [discriminate H |].
    destruct (py_float float_of_str tv) as [ex | tm]; simpl.
    + exists ex. reflexivity.
    + rewrite H. simpl. exists (KeyError "kind"). reflexivity.
  - exists (KeyError "t"). reflexivity.
Qed.

(** C8, as the code has it. Every failing [_load] is atomic: when it
    raises, the state (the macro in memory with it) is the one before the
    call. It raises when an event of the document lacks "t" or "kind": a
    [KeyError] naming the field when that event is the first at fault.
    The kind itself is not checked: an event with "t", "kind" and "data"
    is accepted whatever its kind. *)
Theorem load_failure_is_atomic :
  forall (s : App.State) (path : string) (fs : files),
    (forall s' ex, App._load float_of_str s path fs = (s', Some ex) -> s' = s) /\
    (forall payload items d,
       path <> "" ->
       json_load path fs = ret payload ->
       py_get payload "events" (PList []) = ret (PList items) ->
       In (PDict d) items ->
       lookup "t" d = None \/ lookup "kind" d = None ->
       exists ex, App._load float_of_str s path fs = (s, Some ex)) /\
    (forall d rest,
       path <> "" ->
       json_load path fs = ret (PDict [("events", PList (PDict d :: rest))]) ->
       (lookup "t" d = None ->
        App._load float_of_str s path fs = (s, Some (KeyError "t"))) /\
       (forall tm, lookup "t" d = Some (PFloat tm) -> lookup "kind" d = None ->
        App._load float_of_str s path fs = (s, Some (KeyError "kind")))) /\
    (forall tm k d,
       App.event_of float_of_str (PDict [("t", PFloat tm); ("kind", k); ("data", d)])
       = ret (mkEvent tm k d)).
Proof.
  intros s path fs. split; [| split; [| split]].
  - intros s' ex. unfold App._load.
    destruct (String.eqb path ""); [intro H; discriminate H |].
    destruct (json_load path fs) as [ex0 | payload].
    + intro H. injection H as <- _. reflexivity.
    + destruct (App.events_of float_of_str payload) as [ex0 | evs].
      * intro H. injection H as <- _. reflexivity.
      * intro H. discriminate H.
  - intros payload items d Hp Hl Hg Hin Hmiss.
    unfold App._load. apply String.eqb_neq in Hp. rewrite Hp, Hl.
    unfold ret at 1. cbv iota beta.
    unfold App.events_of. rewrite Hg. cbn [bind ret py_iter].
    destruct (comprehension_fails (App.event_of float_of_str) items (PDict d) Hin
                (event_of_missing_field d Hmiss)) as [ex ->].
    exists ex. reflexivity.
  - intros d rest Hp Hl. apply String.eqb_neq in Hp. split.
    + intro Ht. unfold App._load. rewrite Hp, Hl.
      unfold ret at 1. cbv iota beta.
      unfold App.events_of, App.event_of.
      cbn [py_get lookup String.eqb Ascii.eqb Bool.eqb bind ret py_iter
           comprehension py_getitem].
      rewrite Ht. reflexivity.
    + intros tm Ht Hk. unfold App._load. rewrite Hp, Hl.
      unfold ret at 1. cbv iota beta.
      unfold App.events_of, App.event_of.
      cbn [py_get lookup String.eqb Ascii.eqb Bool.eqb bind ret py_iter
           comprehension py_getitem].
      rewrite Ht. cbn [py_float bind ret]. rewrite Hk. reflexivity.
  - reflexivity.
Qed.

End Serializer.

(** C8 does not hold as worded: a document whose event has a kind that
    is none of the five loads without an exception and replaces the
    macro in memory. *)
Lemma load_accepts_unknown_kind :
  let '(s, raised) :=
    App._load (fun _ => None) (App.initial App.DEFAULT_KEYS) "m.json"
      [("m.json", Json teleport_document)] in
  raised = None /\
  events (App.macro_ref s) = [mkEvent 0 (PStr "teleport") (PDict [])] /\
  existsb (kind_is (mkEvent 0 (PStr "teleport") (PDict [])))
          ["move"; "click"; "scroll"; "kpress"; "krelease"] = false.
Proof. vm_compute. repeat split. Qed.

(* ================================================================== *)
(** * The keys the control surface reserves *)

Lemma hasattr_set_key_filter (r : Recorder.Recorder) :
  App.hasattr r "set_key_filter" = false.
Proof. reflexivity. Qed.

(** The recorder drops the keys of its own set. *)
Lemma recorder_ignores_its_keys (perf_counter : nat -> Q) (r : Recorder.Recorder)
  (n : nat) (k : Key) :
  Key_in k (Recorder.IGNORE_KEYS r) = true ->
  Recorder._on_key_press perf_counter r n k = (r, n) /\
  Recorder._on_key_release perf_counter r n k = (r, n).
Proof.
  intro H. unfold Recorder._on_key_press, Recorder._on_key_release.
  rewrite H, orb_true_r. split; reflexivity.
Qed.

(** C5, in [main.py] with [recorder.py]. With the default bindings (F3
    record, F7 play, F4 save, F6 open), [start_rec] hands nothing to the
    recorder: it has no attribute [ignore_keys] and no method
    [set_key_filter], and filters with its own set F8..F11 and Esc. A
    press and a release of F7, one of the reserved keys, received while
    recording are both appended to the macro. *)
Lemma reserved_key_is_recorded :
  let s0 := App.initial App.DEFAULT_KEYS in
  let '(s1, n1) := App.start_rec tick_clock s0 0 0 in
  let '(s2, n2) := App.key_event tick_clock s1 n1 true (KeyEnum "f7") in
  let '(s3, n3) := App.key_event tick_clock s2 n2 false (KeyEnum "f7") in
  App.get_control_keys s1 = [KeyEnum "f3"; KeyEnum "f7"; KeyEnum "f4"; KeyEnum "f6"] /\
  Key_in (KeyEnum "f7") (App.get_control_keys s1) = true /\
  Recorder._recording (App.rec s1) = true /\
  Recorder.ignore_keys (App.rec s1) = None /\
  Recorder.IGNORE_KEYS (App.rec s1)
  = [KeyEnum "f8"; KeyEnum "f9"; KeyEnum "f10"; KeyEnum "f11"; KeyEnum "esc"] /\
  map (fun e => (kind e, data e)) (events (Recorder.macro (App.rec s3)))
  = [(PStr "kpress", PDict [("key", PStr "key:f7")]);
     (PStr "krelease", PDict [("key", PStr "key:f7")])].
Proof. vm_compute. repeat split. Qed.

(** [save_load_roundtrip] on a run: the macro of the character f and the
    key F1 is saved to keys.json and loaded into a fresh application. *)
Lemma save_load_roundtrip_witness :
  events (App.macro_ref (state_with f_and_f1_macro)) <> [] /\
  "keys.json" <> "" /\
  let '(s1, fs1) := App._save (state_with f_and_f1_macro) "keys.json" [] in
  json_load "keys.json" fs1 = ret (document (events f_and_f1_macro)) /\
  let '(s3, raised) :=
    App._load no_float (App.initial App.DEFAULT_KEYS) "keys.json" fs1 in
  raised = None /\ App.macro_ref s3 = f_and_f1_macro.
Proof.
  assert (He : events (App.macro_ref (state_with f_and_f1_macro)) <> [])
    by discriminate.
  assert (Hp : "keys.json" <> "") by discriminate.
  split; [exact He |]. split; [exact Hp |].
  generalize (save_load_roundtrip no_float (state_with f_and_f1_macro)
                "keys.json" [] He Hp).
  destruct (App._save (state_with f_and_f1_macro) "keys.json" []) as [s1 fs1].
  intros [H1 [H2 _]]. split; [exact H1 |].
  exact (H2 (App.initial App.DEFAULT_KEYS)).
Defined.


(** [play_waits] on a run: [click_macro] played at speed 2 with no stop. *)
Lemma play_waits_witness :
  (forall n, never n = false) /\
  events click_macro <> [] /\
  Forall wait_returns (compute_waits (events click_macro) 2) /\
  nth_error (events click_macro) 1 = Some (click_event (2 # 10) 10 10 "left" true) /\
  (1 # 1000000 <= 2)%Q /\
  filter is_wait (out (snd (Player.play no_int demo_keys never zero_jitter accepting
                              Player.__init__ click_macro 2 0 world0)))
  = map Wait (compute_waits (events click_macro) 2) /\
  nth_error (compute_waits (events click_macro) 2) 1
  = Some (Qmax 0 (((2 # 10) - 0) / Qmax (1 # 1000000) 2)) /\
  Forall2 Qeq (compute_waits (events click_macro) 2) (spec_waits (events click_macro) 2) /\
  Forall2 Qeq (compute_waits [at_time 0; at_time 1; at_time 2] 2) [0; 1 # 2; 1 # 2]%Q.
Proof.
  assert (Hn : forall n, never n = false) by reflexivity.
  assert (He : events click_macro <> []) by discriminate.
  assert (Hi : nth_error (events click_macro) 1
               = Some (click_event (2 # 10) 10 10 "left" true)) by reflexivity.
  assert (Hs : (1 # 1000000 <= 2)%Q) by (vm_compute; discriminate).
  assert (Hb : Forall wait_returns (compute_waits (events click_macro) 2))
    by waits_in_range.
  destruct (play_waits no_int demo_keys never zero_jitter accepting Hn
              (events click_macro) 2) as [H1 [H2 [H3 H4]]].
  split; [exact Hn |]. split; [exact He |]. split; [exact Hb |].
  split; [exact Hi |]. split; [exact Hs |].
  split; [exact (H1 Player.__init__ 0 world0 He Hb) |].
  split; [exact (H2 1%nat _ Hi) |].
  split; [exact (H3 Hs) | exact H4].
Defined.

(** [play_cancellation] on a run: [stop()] during the wait of the second
    event of [click_macro]; only the move was replayed. *)
Lemma play_cancellation_witness :
  (1 < List.length (events click_macro))%nat /\
  (let '(pi, wi) := at_turn no_int demo_keys during_second_wait zero_jitter accepting
                      1 click_macro 1 0 world0 in
   Player._stop_evt pi || during_second_wait (stop_reads wi)
     || during_second_wait (S (stop_reads wi)) = true) /\
  let '(p', w') := Player.play no_int demo_keys during_second_wait zero_jitter accepting
                     Player.__init__ click_macro 1 0 world0 in
  Player._playing p' = false /\
  Player._stop_evt p' = true /\
  filter is_emission (out w') = [MousePosition 10 10].
Proof.
  assert (Hi : (1 < List.length (events click_macro))%nat) by (simpl; lia).
  split; [exact Hi |].
  generalize (play_cancellation no_int demo_keys during_second_wait zero_jitter
                accepting Player.__init__ click_macro 1 0 world0 1%nat Hi).
  destruct (at_turn no_int demo_keys during_second_wait zero_jitter accepting
              1 click_macro 1 0 world0) as [pi wi] eqn:Et.
  assert (Hc : Player._stop_evt pi || during_second_wait (stop_reads wi)
                 || during_second_wait (S (stop_reads wi)) = true).
  { vm_compute in Et. injection Et as <- <-. reflexivity. }
  intro H. specialize (H Hc). split; [exact Hc |].
  destruct (Player.play no_int demo_keys during_second_wait zero_jitter accepting
              Player.__init__ click_macro 1 0 world0) as [p' w'].
  destruct H as [H1 [H2 H3]]. split; [exact H1 |]. split; [exact H2 |].
  rewrite H3. vm_compute in Et. injection Et as _ <-. reflexivity.
Defined.

(** [play_survives_failures] on a run: a move without coordinates is
    reported, a key of no known name is passed over, and the run goes on. *)
Lemma play_survives_failures_witness :
  (forall n, never n = false) /\
  Player._stop_evt idle_playing = false /\
  wait_returns 0 /\
  Forall wait_returns (compute_waits (events foreign_key_macro) 1) /\
  Player.emit no_int demo_keys zero_jitter accepting 0 broken_move (after_wait 0 world0)
  = (after_wait 0 world0, inl (KeyError "x")) /\
  kind_is foreign_key "kpress" || kind_is foreign_key "krelease" = true /\
  py_getitem (data foreign_key) "key" = ret (PStr "key:hyper") /\
  Utils.str_to_key demo_keys "key:hyper" = None /\
  events foreign_key_macro <> [] /\
  (* the turn of the broken event reports, and the loop goes on *)
  Player.play_loop no_int demo_keys never zero_jitter accepting 0
    [(broken_move, 0%Q); (foreign_key, 0%Q)] idle_playing world0
  = Player.play_loop no_int demo_keys never zero_jitter accepting 0
      [(foreign_key, 0%Q)] idle_playing
      (output (StatusPlaybackError (KeyError "x")) (after_wait 0 world0)) /\
  (* the turn of the foreign key does nothing *)
  Player.attempt no_int demo_keys zero_jitter accepting 0 foreign_key (after_wait 0 world0)
  = after_wait 0 world0 /\
  (* the run goes through both events *)
  let '(q', w') := Player.play no_int demo_keys never zero_jitter accepting
                     Player.__init__ foreign_key_macro 1 0 world0 in
  Player._playing q' = false /\
  List.length (filter is_wait (out w')) = 2%nat /\
  List.last (out w') (Status "") = Status "Playback finished.".
Proof.
  assert (Hn : forall n, never n = false) by reflexivity.
  assert (Hp : Player._stop_evt idle_playing = false) by reflexivity.
  assert (Hx : Player.emit no_int demo_keys zero_jitter accepting 0 broken_move
                 (after_wait 0 world0)
               = (after_wait 0 world0, inl (KeyError "x"))) by reflexivity.
  assert (Hk : kind_is foreign_key "kpress" || kind_is foreign_key "krelease" = true)
    by reflexivity.
  assert (Hd : py_getitem (data foreign_key) "key" = ret (PStr "key:hyper"))
    by reflexivity.
  assert (Hr : Utils.str_to_key demo_keys "key:hyper" = None) by reflexivity.
  assert (He : events foreign_key_macro <> []) by discriminate.
  assert (Hw : wait_returns 0) by (vm_compute; discriminate).
  assert (Hb : Forall wait_returns (compute_waits (events foreign_key_macro) 1))
    by waits_in_range.
  destruct (play_survives_failures no_int demo_keys never zero_jitter accepting Hn
              0 broken_move 0%Q [(foreign_key, 0%Q)] idle_playing world0 Hp)
    as [B1 [B2 _]].
  destruct (play_survives_failures no_int demo_keys never zero_jitter accepting Hn
              0 foreign_key 0%Q [] idle_playing world0 Hp)
    as [_ [_ [F3 F4]]].
  split; [exact Hn |]. split; [exact Hp |]. split; [exact Hw |]. split; [exact Hb |].
  split; [exact Hx |].
  split; [exact Hk |]. split; [exact Hd |]. split; [exact Hr |].
  split; [exact He |].
  split.
  { rewrite (B1 Hw). rewrite (B2 _ _ Hx). reflexivity. }
  split; [exact (F3 "key:hyper" Hk Hd Hr) |].
  exact (F4 foreign_key_macro 1%Q Player.__init__ He Hb).
Defined.

(** C7 does not hold as worded: a key event whose string resolves to no
    key is skipped in silence. The run goes on to the next event, but
    nothing about the skipped one reaches the status sink. *)
Lemma unresolvable_key_is_not_reported :
  Utils.str_to_key demo_keys "key:hyper" = None /\
  let w' := snd (Player.play no_int demo_keys never zero_jitter accepting
                   Player.__init__ foreign_key_macro 1 0 world0) in
  out w' = [Status "Playing... (ESC to stop)"; Wait 0; Wait 1;
            KbdPress (KeyCode_char "a"); Status "Playback finished."] /\
  existsb is_error_report (out w') = false.
Proof. vm_compute. repeat split. Qed.

(** [load_failure_is_atomic] on a run: loading [kindless_document] raises
    [KeyError] for "kind" and leaves [click_macro] in memory. *)
Lemma load_failure_is_atomic_witness :
  let s := state_with click_macro in
  let fs := [("bad.json", Json kindless_document)] in
  "bad.json" <> "" /\
  json_load "bad.json" fs = ret kindless_document /\
  py_get kindless_document "events" (PList [])
  = ret (PList [asdict (move_event 0 10 10);
                PDict [("t", PFloat 1); ("data", PDict [])]]) /\
  lookup "kind" [("t", PFloat 1); ("data", PDict [])] = None /\
  App._load no_float s "bad.json" fs = (s, Some (KeyError "kind")) /\
  App.macro_ref (fst (App._load no_float s "bad.json" fs)) = click_macro.
Proof.
  intros s fs.
  assert (Hp : "bad.json" <> "") by discriminate.
  assert (Hl : json_load "bad.json" fs = ret kindless_document) by reflexivity.
  assert (Hg : py_get kindless_document "events" (PList [])
               = ret (PList [asdict (move_event 0 10 10);
                             PDict [("t", PFloat 1); ("data", PDict [])]]))
    by reflexivity.
  assert (Hk : lookup "kind" [("t", PFloat 1); ("data", PDict [])] = None)
    by reflexivity.
  destruct (load_failure_is_atomic no_float s "bad.json" fs) as [A1 [A2 _]].
  destruct (A2 kindless_document _ _ Hp Hl Hg (or_intror (or_introl eq_refl))
              (or_intror Hk)) as [ex Hex].
  assert (Hev : App._load no_float s "bad.json" fs = (s, Some (KeyError "kind")))
    by reflexivity.
  split; [exact Hp |]. split; [exact Hl |]. split; [exact Hg |].
  split; [exact Hk |]. split; [exact Hev |].
  rewrite Hex. reflexivity.
Defined.

(** [unknown_button_replays_as_left] on a run: a press whose button reads
    "Button.x1". *)
Lemma unknown_button_replays_as_left_witness :
  "Button.x1" <> "left" /\ "Button.x1" <> "right" /\ "Button.x1" <> "middle" /\
  accepting (ctl_calls world0) = None /\
  accepting (S (ctl_calls world0)) = None /\
  Utils.str_to_button (PStr "Button.x1") = ret Button_left /\
  exists x' y',
    snd (Player.emit no_int demo_keys zero_jitter accepting 0
           (click_event 0 10 10 "Button.x1" true) world0) = ret tt /\
    out (Player.attempt no_int demo_keys zero_jitter accepting 0
           (click_event 0 10 10 "Button.x1" true) world0)
    = [MousePosition x' y'; MousePress Button_left] /\
    (0 <= 0 -> x' = 10 /\ y' = 10).
Proof.
  assert (H1 : "Button.x1" <> "left") by discriminate.
  assert (H2 : "Button.x1" <> "right") by discriminate.
  assert (H3 : "Button.x1" <> "middle") by discriminate.
  assert (A0 : accepting (ctl_calls world0) = None) by reflexivity.
  assert (A1 : accepting (S (ctl_calls world0)) = None) by reflexivity.
  destruct (unknown_button_replays_as_left no_int demo_keys zero_jitter accepting
              "Button.x1" H1 H2 H3) as [Hb Hc].
  split; [exact H1 |]. split; [exact H2 |]. split; [exact H3 |].
  split; [exact A0 |]. split; [exact A1 |]. split; [exact Hb |].
  exact (Hc 0 0%Q 10 10 true world0 A0 A1).
Defined.

(* ================================================================== *)
(** * More on the recorder *)

Section RecorderLife.

Variable perf_counter : nat -> Q.

Lemma idle_step (r : Recorder.Recorder) (n : nat) (i : Input) :
  Recorder._recording r = false -> is_start i = false ->
  Recorder.step perf_counter (r, n) i = (r, n).
Proof.
  intros Hr Hi. destruct r as [c mi lt lp rc m ig ik]. simpl in Hr. subst rc.
  destruct i; try discriminate Hi; reflexivity.
Qed.

(** After [stop()] the recorder is deaf: whatever callbacks arrive, and
    however often [stop()] is called again, as long as [start()] is not
    called the recorder stays exactly as it was (its macro with it), and
    the clock is not even read. *)
Theorem recorder_idle_ignores_input :
  forall (inputs : list Input) (r : Recorder.Recorder) (n : nat),
    Recorder._recording r = false ->
    forallb (fun i => negb (is_start i)) inputs = true ->
    Recorder.run perf_counter inputs (r, n) = (r, n).
Proof.
  induction inputs as [| i inputs IH]; intros r n Hr Hi; [reflexivity |].
  simpl in Hi. apply andb_prop in Hi. destruct Hi as [Hi Hl].
  apply negb_true_iff in Hi.
  unfold Recorder.run. cbn [fold_left]. rewrite (idle_step r n i Hr Hi).
  apply IH; assumption.
Qed.

Lemma now_result (r : Recorder.Recorder) (n : nat) :
  exists tm c n1,
    Recorder._now perf_counter r n = (tm, Recorder.set_clock c r, n1).
Proof.
  unfold Recorder._now.
  destruct (Utils.now_rel perf_counter (Recorder.clock r) n) as [[tm c] n1].
  exists tm, c, n1. reflexivity.
Qed.

Lemma unthrottled_step (r : Recorder.Recorder) (n : nat) (i : Input) :
  Recorder._recording r = true ->
  unthrottled (Recorder.IGNORE_KEYS r) i ->
  exists tm e c n1,
    event_of_input tm i = Some e /\
    Recorder.step perf_counter (r, n) i
    = (Recorder.append e (Recorder.set_clock c r), n1).
Proof.
  intros Hr Hi. destruct (now_result r n) as [tm [c [n1 Hn]]].
  destruct i as [| | x y | x y b p | x y dx dy | k | k]; simpl in Hi;
    try contradiction; simpl;
    unfold Recorder._on_click, Recorder._on_scroll, Recorder._on_key_press,
           Recorder._on_key_release;
    rewrite Hr; try rewrite Hi; simpl; rewrite Hn;
    eexists tm, _, c, n1; (split; [reflexivity | reflexivity]).
Qed.

Lemma run_records_each :
  forall (inputs : list Input) (r : Recorder.Recorder) (n : nat),
    Recorder._recording r = true ->
    Forall (unthrottled (Recorder.IGNORE_KEYS r)) inputs ->
    let r' := fst (Recorder.run perf_counter inputs (r, n)) in
    Recorder._recording r' = true /\
    exists new,
      events (Recorder.macro r') = (events (Recorder.macro r) ++ new)%list /\
      Forall2 (fun i e => exists tm, event_of_input tm i = Some e) inputs new.
Proof.
  induction inputs as [| i inputs IH]; intros r n Hr Hf.
  - simpl. split; [exact Hr |]. exists []. rewrite app_nil_r. split; constructor.
  - inversion Hf as [| i' l' Hi Hl]; subst.
    destruct (unthrottled_step r n i Hr Hi) as [tm [e [c [n1 [He Hs]]]]].
    unfold Recorder.run. cbn [fold_left]. rewrite Hs.
    specialize (IH (Recorder.append e (Recorder.set_clock c r)) n1 Hr Hl).
    cbv zeta in IH. unfold Recorder.run in IH.
    destruct IH as [Hr' [new [Hev Hn]]].
    cbv zeta. split; [exact Hr' |].
    exists (e :: new). split.
    + rewrite Hev. simpl. rewrite <- app_assoc. reflexivity.
    + constructor; [exists tm; exact He | exact Hn].
Qed.

(** Clicks, scrolls and keys outside [IGNORE_KEYS] are never throttled:
    while recording, every such callback appends exactly one event, the
    one written for it, and the events stand in the order of the
    callbacks after those recorded before. *)
Theorem recorder_records_each_action :
  forall (inputs : list Input) (r : Recorder.Recorder) (n : nat),
    Recorder._recording r = true ->
    Forall (unthrottled (Recorder.IGNORE_KEYS r)) inputs ->
    let r' := fst (Recorder.run perf_counter inputs (r, n)) in
    Recorder._recording r' = true /\
    exists new,
      events (Recorder.macro r') = (events (Recorder.macro r) ++ new)%list /\
      Forall2 (fun i e => exists tm, event_of_input tm i = Some e) inputs new.
Proof. exact run_records_each. Qed.

Lemma all_written_append (r : Recorder.Recorder) (c : Utils.RecClock) (e : Event) :
  all_written r -> written (Recorder.IGNORE_KEYS r) e ->
  all_written (Recorder.append e (Recorder.set_clock c r)).
Proof.
  intros [Hi Ha] He. split; [exact Hi |]. simpl.
  intros e' Hin. apply in_app_or in Hin. destruct Hin as [Hin | [<- | []]].
  - apply Ha. exact Hin.
  - exact He.
Qed.

Lemma step_all_written (s : Recorder.Recorder * nat) (i : Input) :
  all_written (fst s) -> all_written (fst (Recorder.step perf_counter s i)).
Proof.
  destruct s as [r n]. simpl. intro Ha.
  destruct (now_result r n) as [tm [c [n1 Hn]]].
  destruct i as [| | x y | x y b p | x y dx dy | k | k]; simpl.
  - unfold Recorder.start. destruct (Recorder._recording r); [exact Ha |].
    simpl. destruct Ha as [Hi _]. split; [exact Hi |]. simpl. intros e [].
  - exact Ha.
  - unfold Recorder._on_move.
    destruct (negb (Recorder._recording r)); [exact Ha |]. rewrite Hn. simpl.
    destruct (Qlt_bool _ _); [exact Ha |].
    destruct (last_pos_is _ _); [exact Ha |]. simpl.
    destruct Ha as [Hi Ha]. split; [exact Hi |]. simpl.
    intros e Hin. apply in_app_or in Hin. destruct Hin as [Hin | [<- | []]].
    + apply Ha. exact Hin.
    + exists tm, (Move x y). split; [reflexivity | exact I].
  - unfold Recorder._on_click.
    destruct (negb (Recorder._recording r)); [exact Ha |]. rewrite Hn.
    apply all_written_append; [exact Ha |].
    exists tm, (Click x y b p). split; [reflexivity | exact I].
  - unfold Recorder._on_scroll.
    destruct (negb (Recorder._recording r)); [exact Ha |]. rewrite Hn.
    apply all_written_append; [exact Ha |].
    exists tm, (Scroll x y dx dy). split; [reflexivity | exact I].
  - unfold Recorder._on_key_press.
    destruct (negb (Recorder._recording r)); [exact Ha |]. simpl.
    destruct (Key_in k (Recorder.IGNORE_KEYS r)) eqn:Ek; [exact Ha |]. rewrite Hn.
    apply all_written_append; [exact Ha |].
    exists tm, (KeyPress k). split; [reflexivity | exact Ek].
  - unfold Recorder._on_key_release.
    destruct (negb (Recorder._recording r)); [exact Ha |]. simpl.
    destruct (Key_in k (Recorder.IGNORE_KEYS r)) eqn:Ek; [exact Ha |]. rewrite Hn.
    apply all_written_append; [exact Ha |].
    exists tm, (KeyRelease k). split; [reflexivity | exact Ek].
Qed.

Lemma run_all_written (inputs : list Input) (s : Recorder.Recorder * nat) :
  all_written (fst s) -> all_written (fst (Recorder.run perf_counter inputs s)).
Proof.
  unfold Recorder.run. revert s.
  induction inputs as [| i inputs IH]; intros s Ha; cbn [fold_left]; [exact Ha |].
  apply IH. apply step_all_written. exact Ha.
Qed.

Lemma fresh_all_written (interval : Q) : all_written (Recorder.__init__ interval).
Proof. split; [reflexivity | intros e []]. Qed.

(** The recorder writes only whole events: whatever calls reach a fresh
    recorder, every event of its macro is the one written for some move,
    click, scroll, key press or key release: one of the five kinds, with
    every field of its payload. *)
Theorem recorder_events_are_whole :
  forall (interval : Q) (inputs : list Input) (n0 : nat) (e : Event),
    In e (events (Recorder.macro (fst
            (Recorder.run perf_counter inputs (Recorder.__init__ interval, n0))))) ->
    exists tm i, event_of_input tm i = Some e /\ unknown_kind e = false.
Proof.
  intros interval inputs n0 e Hin.
  destruct (run_all_written inputs (Recorder.__init__ interval, n0)
              (fresh_all_written interval)) as [_ Ha].
  destruct (Ha e Hin) as [tm [i [He _]]].
  exists tm, i. split; [exact He |].
  destruct i; simpl in He; try discriminate He; injection He as <-; reflexivity.
Qed.

Lemma key_to_str_reserved (k : Key) :
  In (Utils.key_to_str k) ["key:f8"; "key:f9"; "key:f10"; "key:f11"; "key:esc"] ->
  Key_in k (Recorder.IGNORE_KEYS (Recorder.__init__ 0)) = true.
Proof.
  intro H. destruct k as [name | c | vk]; simpl in H.
  - destruct (String.eqb name "") eqn:En.
    + simpl in H. repeat (destruct H as [H | H]; [discriminate H |]). destruct H.
    + simpl in H.
      repeat (destruct H as [H | H]; [injection H as <-; reflexivity |]).
      destruct H.
  - repeat (destruct H as [H | H]; [discriminate H |]). destruct H.
  - repeat (destruct H as [H | H]; [discriminate H |]). destruct H.
Qed.

(** The recorder never records its own reserved keys: whatever calls
    reach a fresh recorder, no event of its macro carries the key string
    of F8, F9, F10, F11 or Esc. *)
Theorem recorder_never_records_ignored_keys :
  forall (interval : Q) (inputs : list Input) (n0 : nat) (e : Event) (s : string),
    In e (events (Recorder.macro (fst
            (Recorder.run perf_counter inputs (Recorder.__init__ interval, n0))))) ->
    key_string e = Some s ->
    ~ In s ["key:f8"; "key:f9"; "key:f10"; "key:f11"; "key:esc"].
Proof.
  intros interval inputs n0 e s Hin Hk Hs.
  destruct (run_all_written inputs (Recorder.__init__ interval, n0)
              (fresh_all_written interval)) as [Hi Ha].
  destruct (Ha e Hin) as [tm [i [He Hok]]]. rewrite Hi in Hok.
  destruct i; simpl in He; try discriminate He; injection He as <-;
    try discriminate Hk; unfold key_string in Hk; simpl in Hk;
    injection Hk as <-; apply key_to_str_reserved in Hs; congruence.
Qed.

End RecorderLife.

Section RecorderTimes.

Variable perf_counter : nat -> Q.

Hypothesis perf_monotonic : forall n, (perf_counter n <= perf_counter (S n))%Q.
Hypothesis perf_nonzero : forall n, ~ (perf_counter n == 0)%Q.

Lemma perf_rises (n k : nat) : (n <= k)%nat -> (perf_counter n <= perf_counter k)%Q.
Proof.
  induction 1 as [| k _ IH]; [apply Qle_refl |].
  eapply Qle_trans; [exact IH | apply perf_monotonic].
Qed.

Lemma now_grounded (r : Recorder.Recorder) (n : nat) tm r1 n1 :
  grounded perf_counter (r, n) ->
  Recorder._now perf_counter r n = (tm, r1, n1) ->
  (0 <= tm)%Q /\
  forall r2 extra,
    Recorder.clock r2 = Recorder.clock r1 ->
    (forall e, In e (events (Recorder.macro r2)) ->
       In e (events (Recorder.macro r)) \/ In e extra) ->
    (forall e, In e extra -> (0 <= t e)%Q) ->
    grounded perf_counter (r2, n1).
Proof.
  unfold grounded, Recorder._now, Utils.now_rel. simpl.
  intros Hg H.
  destruct (Utils._t0 (Recorder.clock r)) as [t0 |] eqn:E.
  - destruct Hg as [Hz [Hb He]].
    rewrite (Qeq_bool_false _ _ Hz) in H. injection H as <- <- <-.
    split.
    + assert (L := Hb n (le_n n)). lra.
    + intros r2 extra Hc Hin Hx. rewrite Hc. simpl.
      split; [exact Hz |]. split.
      * intros k Hk. apply Hb. lia.
      * intros e Hi. destruct (Hin e Hi) as [Ho | Hn]; [apply He | apply Hx]; assumption.
  - rewrite (Qeq_bool_false _ _ (perf_nonzero n)) in H. injection H as <- <- <-.
    split.
    + assert (L := perf_monotonic n). lra.
    + intros r2 extra Hc Hin Hx. rewrite Hc. simpl.
      split; [apply perf_nonzero |]. split.
      * intros k Hk. apply perf_rises. lia.
      * intros e Hi. destruct (Hin e Hi) as [Ho | Hn]; [| apply Hx; exact Hn].
        rewrite Hg in Ho. destruct Ho.
Qed.

Lemma step_grounded (s : Recorder.Recorder * nat) (i : Input) :
  grounded perf_counter s -> grounded perf_counter (Recorder.step perf_counter s i).
Proof.
  destruct s as [r n]. intro Hg.
  assert (Hkeep : forall tm r1 n1,
             Recorder._now perf_counter r n = (tm, r1, n1) ->
             r1 = Recorder.set_clock (Recorder.clock r1) r).
  { intros tm r1 n1. unfold Recorder._now.
    destruct (Utils.now_rel perf_counter (Recorder.clock r) n) as [[a c] b].
    intro H. injection H as <- <- <-. reflexivity. }
  assert (Hsame : forall tm r1 n1,
             Recorder._now perf_counter r n = (tm, r1, n1) ->
             grounded perf_counter (r1, n1)).
  { intros tm r1 n1 H. destruct (now_grounded r n tm r1 n1 Hg H) as [_ Hk].
    apply (Hk r1 []); [reflexivity | | intros e []].
    intros e Hi. left. rewrite (Hkeep _ _ _ H) in Hi. exact Hi. }
  assert (Happ : forall tm r1 n1 r2 e,
             Recorder._now perf_counter r n = (tm, r1, n1) ->
             t e = tm ->
             Recorder.clock r2 = Recorder.clock r1 ->
             Recorder.macro r2 = Recorder.macro r1 ->
             grounded perf_counter (Recorder.append e r2, n1)).
  { intros tm r1 n1 r2 e H Ht Hc Hm.
    destruct (now_grounded r n tm r1 n1 Hg H) as [Hpos Hk].
    apply (Hk (Recorder.append e r2) [e]); [exact Hc | |].
    - simpl. rewrite Hm, (Hkeep _ _ _ H). simpl.
      intros e' Hi. apply in_app_or in Hi. exact Hi.
    - intros e' [<- | []]. rewrite Ht. exact Hpos. }
  destruct i as [| | x y | x y b p | x y dx dy | k | k]; simpl.
  - unfold Recorder.start. destruct (Recorder._recording r); [exact Hg |].
    unfold grounded. simpl. split; [apply perf_nonzero |]. split.
    + intros k Hk. apply perf_rises. lia.
    + intros e [].
  - exact Hg.
  - unfold Recorder._on_move.
    destruct (negb (Recorder._recording r)); [exact Hg |].
    destruct (Recorder._now perf_counter r n) as [[tm r1] n1] eqn:E.
    destruct (Qlt_bool _ _); [exact (Hsame _ _ _ eq_refl) |].
    destruct (last_pos_is _ _); [exact (Hsame _ _ _ eq_refl) |].
    apply (Happ _ _ _ _ _ eq_refl); reflexivity.
  - unfold Recorder._on_click.
    destruct (negb (Recorder._recording r)); [exact Hg |].
    destruct (Recorder._now perf_counter r n) as [[tm r1] n1] eqn:E.
    apply (Happ _ _ _ _ _ eq_refl); reflexivity.
  - unfold Recorder._on_scroll.
    destruct (negb (Recorder._recording r)); [exact Hg |].
    destruct (Recorder._now perf_counter r n) as [[tm r1] n1] eqn:E.
    apply (Happ _ _ _ _ _ eq_refl); reflexivity.
  - unfold Recorder._on_key_press.
    destruct (negb (Recorder._recording r) || Key_in k (Recorder.IGNORE_KEYS r));
      [exact Hg |].
    destruct (Recorder._now perf_counter r n) as [[tm r1] n1] eqn:E.
    apply (Happ _ _ _ _ _ eq_refl); reflexivity.
  - unfold Recorder._on_key_release.
    destruct (negb (Recorder._recording r) || Key_in k (Recorder.IGNORE_KEYS r));
      [exact Hg |].
    destruct (Recorder._now perf_counter r n) as [[tm r1] n1] eqn:E.
    apply (Happ _ _ _ _ _ eq_refl); reflexivity.
Qed.

Lemma run_grounded (inputs : list Input) (s : Recorder.Recorder * nat) :
  grounded perf_counter s -> grounded perf_counter (Recorder.run perf_counter inputs s).
Proof.
  unfold Recorder.run. revert s.
  induction inputs as [| i inputs IH]; intros s Hs; cbn [fold_left]; [exact Hs |].
  apply IH. apply step_grounded. exact Hs.
Qed.

(** Recorded times are never negative: whatever calls reach a fresh
    recorder, read against a monotonic clock none of whose readings is
    zero, every event of its macro has [t >= 0]. *)
Theorem recorder_times_nonnegative :
  forall (interval : Q) (inputs : list Input) (n0 : nat) (e : Event),
    In e (events (Recorder.macro (fst
            (Recorder.run perf_counter inputs (Recorder.__init__ interval, n0))))) ->
    (0 <= t e)%Q.
Proof.
  intros interval inputs n0 e Hin.
  assert (Hg := run_grounded inputs (Recorder.__init__ interval, n0) eq_refl).
  unfold grounded in Hg.
  destruct (Utils._t0 (Recorder.clock (fst _))).
  - destruct Hg as [_ [_ He]]. apply He. exact Hin.
  - rewrite Hg in Hin. destruct Hin.
Qed.

End RecorderTimes.

(* ================================================================== *)
(** * Key and button strings *)

Lemma substring_full (s : string) : substring 0 (String.length s) s = s.
Proof. induction s as [| c s IH]; simpl; [reflexivity | rewrite IH; reflexivity]. Qed.

Lemma drop_char (c : string) : Utils.drop 5 ("char:" ++ c) = c.
Proof.
  unfold Utils.drop.
  replace (String.length ("char:" ++ c) - 5)%nat with (String.length c)
    by (simpl; lia).
  simpl. apply substring_full.
Qed.

Lemma drop_key (name : string) : Utils.drop 4 ("key:" ++ name) = name.
Proof.
  unfold Utils.drop.
  replace (String.length ("key:" ++ name) - 4)%nat with (String.length name)
    by (simpl; lia).
  simpl. apply substring_full.
Qed.

Lemma drop_Key_dot (name : string) : Utils.drop 4 ("Key." ++ name) = name.
Proof.
  unfold Utils.drop.
  replace (String.length ("Key." ++ name) - 4)%nat with (String.length name)
    by (simpl; lia).
  simpl. apply substring_full.
Qed.

Lemma Key_item_member (Key_names : list string) (name : string) :
  In name Key_names -> Utils.Key_item Key_names name = Some (KeyEnum name).
Proof.
  intro H. unfold Utils.Key_item.
  assert (Hex : existsb (String.eqb name) Key_names = true).
  { apply existsb_exists. exists name. split; [exact H | apply String.eqb_refl]. }
  rewrite Hex. reflexivity.
Qed.

Lemma Key_item_stranger (Key_names : list string) (name : string) :
  ~ In name Key_names -> Utils.Key_item Key_names name = None.
Proof.
  intro H. unfold Utils.Key_item.
  destruct (existsb (String.eqb name) Key_names) eqn:E; [| reflexivity].
  apply existsb_exists in E. destruct E as [x [Hx Hn]].
  apply String.eqb_eq in Hn. subst x. contradiction.
Qed.

Lemma str_to_key_of_char (Key_names : list string) (c : string) :
  Utils.str_to_key Key_names (Utils.key_to_str (KeyCode_char c)) = Some (KeyCode_char c).
Proof.
  unfold Utils.str_to_key, Utils.key_to_str.
  change (Utils.startswith "char:" ("char:" ++ c)) with (String.prefix "" c).
  destruct c; simpl String.prefix; cbv iota; rewrite drop_char; reflexivity.
Qed.

Lemma str_to_key_of_member (Key_names : list string) (name : string) :
  In name Key_names -> name <> "" ->
  Utils.str_to_key Key_names (Utils.key_to_str (KeyEnum name)) = Some (KeyEnum name).
Proof.
  intros Hin Hne. unfold Utils.str_to_key, Utils.key_to_str.
  apply String.eqb_neq in Hne. rewrite Hne.
  change (Utils.startswith "char:" ("key:" ++ name)) with false.
  change (Utils.startswith "key:" ("key:" ++ name)) with (String.prefix "" name).
  destruct name; simpl String.prefix; cbv iota; rewrite drop_key;
    rewrite (Key_item_member _ _ Hin); reflexivity.
Qed.

Lemma str_to_key_of_vk (Key_names : list string) (vk : Z) :
  ~ In ("<" ++ str_of_Z vk ++ ">") Key_names ->
  Utils.str_to_key Key_names (Utils.key_to_str (KeyCode_vk vk)) = None.
Proof.
  intro Hout. unfold Utils.str_to_key, Utils.key_to_str, Key_str.
  change (Utils.startswith "char:" ("key:" ++ "<" ++ str_of_Z vk ++ ">")) with false.
  change (Utils.startswith "key:" ("key:" ++ "<" ++ str_of_Z vk ++ ">")) with true.
  cbv iota zeta. rewrite drop_key, (Key_item_stranger _ _ Hout). reflexivity.
Qed.

Lemma str_to_key_of_known (Key_names : list string) (k : Key) :
  known_key Key_names k ->
  Utils.str_to_key Key_names (Utils.key_to_str k) = Some k.
Proof.
  destruct k as [name | c | vk]; simpl.
  - intros [Hin Hne]. apply str_to_key_of_member; assumption.
  - intros _. apply str_to_key_of_char.
  - intros [].
Qed.

(** Key strings of [utils.py] come back as the key they were written
    for: a character key as that character, whatever the character (a
    colon, or the text of a key name), never as a named key; a member of
    [keyboard.Key] as that member. A key that has only a virtual key
    code is written as "key:<code>" and comes back as no key at all. *)
Theorem key_strings_round_trip :
  forall (Key_names : list string),
    (forall c,
       Utils.str_to_key Key_names (Utils.key_to_str (KeyCode_char c))
       = Some (KeyCode_char c)) /\
    (forall name,
       In name Key_names -> name <> "" ->
       Utils.str_to_key Key_names (Utils.key_to_str (KeyEnum name))
       = Some (KeyEnum name)) /\
    (forall vk,
       ~ In ("<" ++ str_of_Z vk ++ ">") Key_names ->
       Utils.str_to_key Key_names (Utils.key_to_str (KeyCode_vk vk)) = None).
Proof.
  intro Key_names. split; [| split].
  - apply str_to_key_of_char.
  - apply str_to_key_of_member.
  - apply str_to_key_of_vk.
Qed.

(** Button strings: each of the three buttons comes back from its
    string; and whatever the string, [str_to_button] raises nothing and
    never answers with a button other than the three. *)
Theorem button_strings_round_trip :
  (forall b,
     match b with
     | Button_other _ => True
     | _ => Utils.str_to_button (PStr (Utils.button_to_str b)) = ret b
     end) /\
  (forall s, exists b,
     Utils.str_to_button (PStr s) = ret b /\
     match b with Button_other _ => False | _ => True end).
Proof.
  split.
  - intros [| | | repr]; reflexivity || exact I.
  - intro s. unfold Utils.str_to_button.
    destruct (String.eqb s "left"); [exists Button_left; split; [reflexivity | exact I] |].
    destruct (String.eqb s "right"); [exists Button_right; split; [reflexivity | exact I] |].
    destruct (String.eqb s "middle");
      [exists Button_middle | exists Button_left]; (split; [reflexivity | exact I]).
Qed.

(** Key strings of the script: characters and members of [keyboard.Key]
    come back as they were written ("key:Key.space"); a key that has
    only a virtual key code comes back as no key. *)
Theorem script_key_strings_round_trip :
  forall (Key_names Key_attributes : list string),
    (forall c,
       MacOSTinyTask._str_to_key Key_names Key_attributes
         (MacOSTinyTask._key_to_str (KeyCode_char c))
       = Some (MacOSTinyTask.Member (KeyCode_char c))) /\
    (forall name,
       In name Key_names ->
       MacOSTinyTask._str_to_key Key_names Key_attributes
         (MacOSTinyTask._key_to_str (KeyEnum name))
       = Some (MacOSTinyTask.Member (KeyEnum name))) /\
    (forall vk,
       MacOSTinyTask._str_to_key Key_names Key_attributes
         (MacOSTinyTask._key_to_str (KeyCode_vk vk))
       = None).
Proof.
  intros Key_names Key_attributes. split; [| split].
  - intro c. unfold MacOSTinyTask._str_to_key, MacOSTinyTask._key_to_str.
    change (Utils.startswith "char:" ("char:" ++ c)) with (String.prefix "" c).
    destruct c; simpl String.prefix; cbv iota; rewrite drop_char; reflexivity.
  - intros name Hin.
    unfold MacOSTinyTask._str_to_key, MacOSTinyTask._key_to_str, Key_str.
    change (Utils.startswith "char:" ("key:" ++ "Key." ++ name)) with false.
    change (Utils.startswith "key:" ("key:" ++ "Key." ++ name)) with true.
    cbv iota zeta. rewrite drop_key.
    change (Utils.startswith "Key." ("Key." ++ name)) with (String.prefix "" name).
    assert (Hex : existsb (String.eqb name) Key_names = true).
    { apply existsb_exists. exists name. split; [exact Hin | apply String.eqb_refl]. }
    destruct name; simpl String.prefix; cbv iota; rewrite drop_Key_dot;
      unfold MacOSTinyTask.getattr_Key; rewrite Hex; reflexivity.
  - intro vk.
    unfold MacOSTinyTask._str_to_key, MacOSTinyTask._key_to_str, Key_str.
    change (Utils.startswith "char:" ("key:" ++ "<" ++ str_of_Z vk ++ ">")) with false.
    change (Utils.startswith "key:" ("key:" ++ "<" ++ str_of_Z vk ++ ">")) with true.
    cbv iota zeta. rewrite drop_key. reflexivity.
Qed.

(** The two key encodings meet in one direction only. The player of
    [utils.py] reads the named keys the script wrote ("key:Key.space"),
    but the script reads none of the named keys [utils.py] wrote
    ("key:space"): it answers with no key, and the event is passed
    over. *)
Theorem key_strings_across_versions :
  forall (Key_names Key_attributes : list string) (name : string),
    In name Key_names -> name <> "" ->
    (~ In ("Key." ++ name) Key_names ->
     Utils.str_to_key Key_names (MacOSTinyTask._key_to_str (KeyEnum name))
     = Some (KeyEnum name)) /\
    (Utils.startswith "Key." name = false ->
     MacOSTinyTask._str_to_key Key_names Key_attributes
       (Utils.key_to_str (KeyEnum name))
     = None).
Proof.
  intros Key_names Key_attributes name Hin Hne. split.
  - intro Hout. unfold Utils.str_to_key, MacOSTinyTask._key_to_str, Key_str.
    change (Utils.startswith "char:" ("key:" ++ "Key." ++ name)) with false.
    change (Utils.startswith "key:" ("key:" ++ "Key." ++ name)) with true.
    cbv iota zeta. rewrite drop_key, (Key_item_stranger _ _ Hout).
    change (Utils.startswith "Key." ("Key." ++ name)) with (String.prefix "" name).
    destruct name; simpl String.prefix; cbv iota; rewrite drop_Key_dot;
      apply Key_item_member; exact Hin.
  - intro Hp. unfold MacOSTinyTask._str_to_key, Utils.key_to_str.
    apply String.eqb_neq in Hne. rewrite Hne.
    change (Utils.startswith "char:" ("key:" ++ name)) with false.
    change (Utils.startswith "key:" ("key:" ++ name)) with (String.prefix "" name).
    destruct name; simpl String.prefix; cbv iota; rewrite drop_key, Hp; reflexivity.
Qed.

(* ================================================================== *)
(** * More on playback *)

Lemma waits_nonnegative (speed : Q) (evs : list Event) :
  forall prev, Forall (fun wt => (0 <= wt)%Q) (waits_from prev evs speed).
Proof.
  induction evs as [| e evs IH]; intro prev; simpl; constructor.
  - apply Q.le_max_l.
  - apply IH.
Qed.

(** The waits of a run are as many as the events and never negative,
    whatever the order of the times and whatever the speed (zero and
    negative speeds included). *)
Theorem waits_are_never_negative :
  forall (evs : list Event) (speed : Q),
    List.length (compute_waits evs speed) = List.length evs /\
    Forall (fun wt => (0 <= wt)%Q) (compute_waits evs speed).
Proof.
  intros evs speed. split.
  - apply waits_from_length.
  - apply waits_nonnegative.
Qed.

Section PlaybackMore.

Variable int_of_str : string -> option Z.
Variable Key_names : list string.
Variable stop_called : nat -> bool.
Variable randint : nat -> Z -> Z -> Z.
Variable controller_raises : nat -> option string.

Local Notation "'play_loop'" :=
  (Player.play_loop int_of_str Key_names stop_called randint controller_raises).
Local Notation "'play'" :=
  (Player.play int_of_str Key_names stop_called randint controller_raises).
Local Notation "'attempt'" :=
  (Player.attempt int_of_str Key_names randint controller_raises).
Local Notation "'emit'" :=
  (Player.emit int_of_str Key_names randint controller_raises).

(** ** Events the jitter does not concern, events of no known kind *)

Lemma emit_without_jitter (jitter_px : Z) (e : Event) (w : World) :
  positional e = false -> emit jitter_px e w = emit 0 e w.
Proof.
  unfold positional. intro H. apply orb_false_elim in H. destruct H as [Hm Hc].
  unfold Player.emit. rewrite Hm, Hc. reflexivity.
Qed.

Lemma play_loop_without_jitter (jitter_px : Z) (l : list (Event * Q)) :
  (forall e wt, In (e, wt) l -> positional e = false) ->
  forall p w, play_loop jitter_px l p w = play_loop 0 l p w.
Proof.
  induction l as [| [e wt] l IH]; intros Hl p w; [reflexivity |].
  simpl.
  destruct (Player._stop_evt p || stop_called (stop_reads w)); [reflexivity |].
  simpl. destruct (stop_called (S (stop_reads w))); simpl; [reflexivity |].
  unfold Player.attempt. rewrite (emit_without_jitter jitter_px e _ (Hl e wt (or_introl eq_refl))).
  apply IH. intros e' wt' Hin. apply (Hl e' wt'). right. exact Hin.
Qed.

(** Only moves and clicks are jittered: a macro without them is played
    the same with any jitter as with none; the random source is not
    consulted. *)
Theorem jitter_leaves_other_events_alone :
  forall (macro : Macro) (p : Player.Player) (speed : Q) (jitter_px : Z) (w : World),
    (forall e, In e (events macro) -> positional e = false) ->
    play p macro speed jitter_px w = play p macro speed 0 w /\
    rand_calls (snd (play p macro speed jitter_px w)) = rand_calls w.
Proof.
  intros macro p speed jitter_px w Hpos.
  assert (Heq : play p macro speed jitter_px w = play p macro speed 0 w).
  { unfold Player.play. destruct (events macro) as [| e0 evs] eqn:Ee; [reflexivity |].
    rewrite play_loop_without_jitter; [reflexivity |].
    intros e wt Hin. apply in_combine_l in Hin. apply Hpos.
    first [exact Hin | rewrite Ee; exact Hin]. }
  split; [exact Heq |]. rewrite Heq. clear Heq.
  unfold Player.play. destruct (events macro) as [| e0 evs]; [reflexivity |].
  set (l := combine (e0 :: evs) (compute_waits (e0 :: evs) speed)). clearbody l.
  set (p0 := {| Player._stop_evt := false; Player._playing := true |}).
  set (w0 := output (Status "Playing... (ESC to stop)") w).
  assert (Hr : forall l p1 w1, rand_calls (snd (play_loop 0 l p1 w1)) = rand_calls w1).
  { clear. induction l as [| [e wt] l IH]; intros p1 w1; [reflexivity |].
    simpl.
    destruct (Player._stop_evt p1 || stop_called (stop_reads w1)); [reflexivity |].
    simpl. destruct (stop_called (S (stop_reads w1))); simpl; [reflexivity |].
    rewrite IH. unfold Player.attempt.
    assert (He : forall w2, rand_calls (fst (emit 0 e w2)) = rand_calls w2).
    { intro w2. unfold Player.emit, Player.jittered, bindP, pure, Player.controller.
      simpl.
      repeat match goal with
             | |- context [if ?b then _ else _] => destruct b
             | |- context [match ?x with inl _ => _ | inr _ => _ end] => destruct x
             | |- context [match ?x with Some _ => _ | None => _ end] => destruct x
             end; reflexivity. }
    specialize (He {| stop_reads := S (S (stop_reads w1)); rand_calls := rand_calls w1;
                      ctl_calls := ctl_calls w1; out := (out w1 ++ [Wait wt])%list |}).
    destruct (emit 0 e _) as [w2 [ex | u]]; simpl in *; exact He. }
  specialize (Hr l p0 w0). destruct (play_loop 0 l p0 w0) as [p' w']. simpl in *.
  exact Hr.
Qed.

Lemma attempt_unknown_kind (jitter_px : Z) (e : Event) (w : World) :
  unknown_kind e = true -> attempt jitter_px e w = w.
Proof.
  unfold unknown_kind. intro H. apply negb_true_iff in H.
  repeat (apply orb_false_elim in H; destruct H as [H ?]).
  unfold Player.attempt, Player.emit.
  repeat match goal with
         | E : kind_is e _ = false |- _ => rewrite E; clear E
         end.
  reflexivity.
Qed.

Lemma play_loop_unknown_kinds (jitter_px : Z) (l : list (Event * Q)) :
  (forall e wt, In (e, wt) l -> unknown_kind e = true) ->
  forall p w,
    let w' := snd (play_loop jitter_px l p w) in
    filter is_emission (out w') = filter is_emission (out w) /\
    filter is_error_report (out w') = filter is_error_report (out w) /\
    ctl_calls w' = ctl_calls w /\ rand_calls w' = rand_calls w.
Proof.
  induction l as [| [e wt] l IH]; intros Hl p w; [repeat split |].
  simpl.
  destruct (Player._stop_evt p || stop_called (stop_reads w)); [repeat split |].
  simpl. destruct (stop_called (S (stop_reads w))); simpl.
  - rewrite !filter_app. simpl. rewrite !app_nil_r. repeat split.
  - rewrite (attempt_unknown_kind jitter_px e _ (Hl e wt (or_introl eq_refl))).
    destruct (IH (fun e' wt' Hin => Hl e' wt' (or_intror Hin))
                {| Player._stop_evt := false; Player._playing := Player._playing p |}
                {| stop_reads := S (S (stop_reads w)); rand_calls := rand_calls w;
                   ctl_calls := ctl_calls w; out := (out w ++ [Wait wt])%list |})
      as [H1 [H2 [H3 H4]]].
    simpl in *. rewrite H1, H2, H3, H4, !filter_app. simpl. rewrite !app_nil_r.
    repeat split.
Qed.

(** ** How a run ends *)

Lemma play_loop_ends (jitter_px : Z) (l : list (Event * Q)) :
  forall p w,
    Player._stop_evt p = false ->
    let '(p', w') := play_loop jitter_px l p w in
    (Player._stop_evt p' = false ->
     filter is_wait (out w')
     = (filter is_wait (out w) ++ map Wait (map snd l))%list) /\
    (Player._stop_evt p' = true ->
     exists n, (stop_reads w <= n < stop_reads w')%nat /\ stop_called n = true).
Proof.
  induction l as [| [e wt] l IH]; intros p w Hp.
  - simpl. split; [intros _; rewrite app_nil_r; reflexivity | congruence].
  - simpl. rewrite Hp. simpl.
    destruct (stop_called (stop_reads w)) eqn:E1; simpl.
    + split; [discriminate |]. intros _. exists (stop_reads w). split; [lia | exact E1].
    + destruct (stop_called (S (stop_reads w))) eqn:E2; simpl.
      * split; [discriminate |]. intros _. exists (S (stop_reads w)).
        split; [lia | exact E2].
      * specialize (IH {| Player._stop_evt := false; Player._playing := Player._playing p |}
                       (attempt jitter_px e
                          {| stop_reads := S (S (stop_reads w)); rand_calls := rand_calls w;
                             ctl_calls := ctl_calls w; out := (out w ++ [Wait wt])%list |})
                       eq_refl).
        assert (Hsr : forall w0, stop_reads (attempt jitter_px e w0) = stop_reads w0).
        { intro w0. unfold Player.attempt, Player.emit, Player.jittered, bindP, pure,
            Player.controller, Player.random_randint. simpl.
          repeat match goal with
                 | |- context [if ?b then _ else _] => destruct b
                 | |- context [match ?x with inl _ => _ | inr _ => _ end] => destruct x
                 | |- context [match ?x with Some _ => _ | None => _ end] => destruct x
                 end; reflexivity. }
        destruct (play_loop jitter_px l _ _) as [p' w'].
        destruct IH as [IH1 IH2]. split.
        -- intro Hf. rewrite (IH1 Hf).
           rewrite (attempt_waits int_of_str Key_names randint controller_raises).
           simpl. rewrite filter_app. simpl. rewrite <- app_assoc. reflexivity.
        -- intro Hf. destruct (IH2 Hf) as [n [Hn Hc]]. exists n.
           rewrite Hsr in Hn. simpl in Hn. split; [lia | exact Hc].
Qed.

(** Events of a kind that is none of the five are passed over in
    silence: for a macro made of such events no controller is called and
    no error is reported, whatever their payload and whether the run is
    stopped or not; and they are waited for like any other: when every
    wait returns and the stop signal is clear at the end, the waits made
    are the precomputed ones, one per event, in order. *)
Theorem unknown_kinds_are_passed_over :
  forall (macro : Macro) (p : Player.Player) (speed : Q) (jitter_px : Z) (w : World),
    (forall e, In e (events macro) -> unknown_kind e = true) ->
    let '(p', w') := play p macro speed jitter_px w in
    filter is_emission (out w') = filter is_emission (out w) /\
    filter is_error_report (out w') = filter is_error_report (out w) /\
    ctl_calls w' = ctl_calls w /\
    (Forall wait_returns (compute_waits (events macro) speed) ->
     Player._stop_evt p' = false ->
     filter is_wait (out w')
     = (filter is_wait (out w) ++ map Wait (compute_waits (events macro) speed))%list).
Proof.
  intros macro p speed jitter_px w Hk. unfold Player.play.
  destruct (events macro) as [| e0 evs] eqn:Ee.
  - simpl. rewrite !filter_app. simpl. rewrite !app_nil_r. repeat split.
  - set (l := combine (e0 :: evs) (compute_waits (e0 :: evs) speed)).
    assert (Hl : forall e wt, In (e, wt) l -> unknown_kind e = true).
    { intros e wt Hin. apply in_combine_l in Hin. apply Hk.
      first [exact Hin | rewrite Ee; exact Hin]. }
    assert (Hs : map snd l = compute_waits (e0 :: evs) speed).
    { unfold l, compute_waits. apply combine_waits_snd. }
    clearbody l.
    destruct (play_loop_unknown_kinds jitter_px l Hl
                {| Player._stop_evt := false; Player._playing := true |}
                (output (Status "Playing... (ESC to stop)") w)) as [H1 [H2 [H3 _]]].
    assert (He := play_loop_ends jitter_px l
                    {| Player._stop_evt := false; Player._playing := true |}
                    (output (Status "Playing... (ESC to stop)") w) eq_refl).
    destruct (play_loop jitter_px l _ _) as [p' w']. simpl in *.
    destruct He as [He _].
    rewrite !filter_app, H1, H2, H3, !filter_app. simpl. rewrite !app_nil_r.
    split; [reflexivity |]. split; [reflexivity |]. split; [reflexivity |].
    intros _ Hf. rewrite (He Hf), Hs, filter_app. simpl. rewrite app_nil_r.
    reflexivity.
Qed.

(** However a run of a macro with events, all of whose waits return,
    ends, it ends the same way to the eye: [_playing] is false and the
    last message is "Playback finished.", also when the run was stopped.
    What tells the two apart is the stop signal, which [play] leaves as
    it found it at the last read: if it is clear, every event had its
    turn and every wait was made; if it is set, another thread called
    [stop()] before one of the reads of the stop signal this run made. *)
Theorem play_ends_finished :
  forall (macro : Macro) (p : Player.Player) (speed : Q) (jitter_px : Z) (w : World),
    events macro <> [] ->
    Forall wait_returns (compute_waits (events macro) speed) ->
    let '(p', w') := play p macro speed jitter_px w in
    Player._playing p' = false /\
    List.last (out w') (Status "") = Status "Playback finished." /\
    (Player._stop_evt p' = false ->
     filter is_wait (out w')
     = (filter is_wait (out w) ++ map Wait (compute_waits (events macro) speed))%list) /\
    (Player._stop_evt p' = true ->
     exists n, (stop_reads w <= n < stop_reads w')%nat /\ stop_called n = true).
Proof.
  intros macro p speed jitter_px w He _. unfold Player.play.
  destruct (events macro) as [| e0 evs]; [congruence |]. clear He.
  assert (Hl := play_loop_ends jitter_px
                  (combine (e0 :: evs) (compute_waits (e0 :: evs) speed))
                  {| Player._stop_evt := false; Player._playing := true |}
                  (output (Status "Playing... (ESC to stop)") w) eq_refl).
  destruct (play_loop jitter_px _ _ _) as [p' w'].
  destruct Hl as [H1 H2]. simpl. split; [reflexivity |]. split; [apply last_last |].
  split.
  - intro Hf. rewrite filter_app, (H1 Hf). unfold compute_waits.
    rewrite combine_waits_snd. simpl. rewrite filter_app. simpl.
    rewrite !app_nil_r. reflexivity.
  - intro Hf. destruct (H2 Hf) as [n [Hn Hc]]. exists n.
    simpl in Hn. split; [exact Hn | exact Hc].
Qed.

(** ** Jitter *)


Section Jitter.

(** [random.randint(a, b)] answers within its bounds. *)
Hypothesis randint_in_range :
  forall n a b, a <= b -> a <= randint n a b <= b.



End Jitter.

(** ** Replaying what was recorded *)

Lemma calls_are_emissions (i : Input) :
  filter is_emission (calls_of_input i) = calls_of_input i /\
  filter is_error_report (calls_of_input i) = [].
Proof. destruct i as [| | x y | x y b [|] | x y dx dy | k | k]; split; reflexivity. Qed.

Section Faithful.

(** Nobody calls [stop()], and the controllers accept every call. *)
Hypothesis never_stopped : forall n, stop_called n = false.
Hypothesis accepting_all : forall n, controller_raises n = None.

Lemma attempt_repeats (jitter_px : Z) (tm : Q) (i : Input) (e : Event) (w : World) :
  jitter_px <= 0 ->
  repeatable Key_names i ->
  event_of_input tm i = Some e ->
  out (attempt jitter_px e w) = (out w ++ calls_of_input i)%list.
Proof.
  intros Hj Hr He. apply Z.ltb_ge in Hj.
  destruct i as [| | x y | x y b p | x y dx dy | k | k]; simpl in Hr, He;
    try contradiction; injection He as <-.
  - unfold Player.attempt, Player.emit, Player.jittered, bindP, pure, Player.controller.
    simpl. rewrite Hj. simpl. rewrite accepting_all. reflexivity.
  - assert (Hb : Utils.str_to_button (PStr (Utils.button_to_str b)) = ret b).
    { destruct b; try contradiction; reflexivity. }
    assert (Hem : emit jitter_px
                    (click_event tm (Coord_int x) (Coord_int y) (Utils.button_to_str b) p) w
                  = bindP (pure (Utils.str_to_button (PStr (Utils.button_to_str b))))
                      (fun btn =>
                         bindP (Player.jittered randint jitter_px
                                  (Coord_int x) (Coord_int y))
                           (fun xy =>
                              bindP (Player.controller controller_raises
                                       (MousePosition (fst xy) (snd xy)))
                                (fun _ =>
                                   if p
                                   then Player.controller controller_raises (MousePress btn)
                                   else Player.controller controller_raises
                                          (MouseRelease btn)))) w)
      by reflexivity.
    unfold Player.attempt. rewrite Hem. unfold bindP at 1, pure. rewrite Hb.
    unfold ret at 1. cbv iota beta.
    unfold Player.jittered. rewrite Hj.
    unfold bindP, pure, Player.controller. simpl. rewrite accepting_all.
    destruct p; simpl; rewrite accepting_all; simpl; rewrite <- app_assoc; reflexivity.
  - unfold Player.attempt, Player.emit, bindP, pure, Player.controller.
    simpl. rewrite accepting_all. reflexivity.
  - assert (Hem : emit jitter_px (key_event_of "kpress" tm k) w
                  = match Utils.str_to_key Key_names (Utils.key_to_str k) with
                    | Some key => Player.controller controller_raises (KbdPress key) w
                    | None => (w, ret tt)
                    end).
    { unfold Player.emit, bindP, pure. simpl.
      destruct (Utils.str_to_key Key_names (Utils.key_to_str k)); reflexivity. }
    unfold Player.attempt. rewrite Hem, (str_to_key_of_known _ _ Hr).
    unfold Player.controller. rewrite accepting_all. reflexivity.
  - assert (Hem : emit jitter_px (key_event_of "krelease" tm k) w
                  = match Utils.str_to_key Key_names (Utils.key_to_str k) with
                    | Some key => Player.controller controller_raises (KbdRelease key) w
                    | None => (w, ret tt)
                    end).
    { unfold Player.emit, bindP, pure. simpl.
      destruct (Utils.str_to_key Key_names (Utils.key_to_str k)); reflexivity. }
    unfold Player.attempt. rewrite Hem, (str_to_key_of_known _ _ Hr).
    unfold Player.controller. rewrite accepting_all. reflexivity.
Qed.

Lemma play_loop_repeats (jitter_px : Z) (inputs : list Input) :
  jitter_px <= 0 ->
  Forall (repeatable Key_names) inputs ->
  forall (l : list (Event * Q)) (p : Player.Player) (w : World),
    Forall2 (fun i ew => exists tm, event_of_input tm i = Some (fst ew)) inputs l ->
    Player._stop_evt p = false ->
    let '(p', w') := play_loop jitter_px l p w in
    p' = p /\
    filter is_emission (out w')
    = (filter is_emission (out w) ++ flat_map calls_of_input inputs)%list /\
    filter is_error_report (out w') = filter is_error_report (out w).
Proof.
  intros Hj Hr. induction Hr as [| i inputs Hi Hr IH]; intros l p w Hf Hp.
  - inversion Hf; subst. simpl. rewrite app_nil_r. repeat split.
  - inversion Hf as [| i' [e wt] inputs' l' [tm He] Hf']; subst. simpl in He.
    rewrite (play_loop_turn int_of_str Key_names stop_called randint controller_raises
               never_stopped jitter_px e wt l' p w Hp).
    specialize (IH l' p (attempt jitter_px e (after_wait wt w)) Hf' Hp).
    destruct (play_loop jitter_px l' p _) as [p' w'].
    destruct IH as [-> [IH1 IH2]]. split; [reflexivity |].
    assert (Ha := attempt_repeats jitter_px tm i e (after_wait wt w) Hj Hi He).
    destruct (calls_are_emissions i) as [C1 C2].
    rewrite IH1, IH2, Ha. unfold after_wait. simpl.
    rewrite !filter_app, C1, C2. simpl. rewrite !app_nil_r, <- app_assoc.
    split; reflexivity.
Qed.

Lemma combine_waits_related {A} (R : A -> Event -> Prop) (speed : Q) (inputs : list A)
  (evs : list Event) :
  Forall2 R inputs evs ->
  forall prev,
    Forall2 (fun i ew => R i (fst ew)) inputs (combine evs (waits_from prev evs speed)).
Proof.
  induction 1 as [| i e inputs evs Hie Hf IH]; intro prev; simpl; constructor.
  - exact Hie.
  - apply IH.
Qed.

Lemma play_repeats (inputs : list Input) (evs : list Event) (p : Player.Player)
  (speed : Q) (jitter_px : Z) (w : World) :
  jitter_px <= 0 ->
  Forall (repeatable Key_names) inputs ->
  Forall2 (fun i e => exists tm, event_of_input tm i = Some e) inputs evs ->
  let w' := snd (play p (mkMacro evs) speed jitter_px w) in
  filter is_emission (out w')
  = (filter is_emission (out w) ++ flat_map calls_of_input inputs)%list /\
  filter is_error_report (out w') = filter is_error_report (out w).
Proof.
  intros Hj Hr Hf. unfold Player.play. simpl events.
  destruct evs as [| e0 evs].
  - inversion Hf; subst. simpl. rewrite !filter_app. simpl. rewrite !app_nil_r.
    split; reflexivity.
  - assert (Hl := play_loop_repeats jitter_px inputs Hj Hr
                    (combine (e0 :: evs) (compute_waits (e0 :: evs) speed))
                    {| Player._stop_evt := false; Player._playing := true |}
                    (output (Status "Playing... (ESC to stop)") w)
                    (combine_waits_related _ speed inputs (e0 :: evs) Hf 0) eq_refl).
    destruct (play_loop jitter_px _ _ _) as [p' w'].
    destruct Hl as [_ [H1 H2]]. simpl.
    rewrite !filter_app, H1, H2. simpl. rewrite !filter_app. simpl.
    rewrite !app_nil_r. split; reflexivity.
Qed.

(** Replay is faithful: a macro whose events are those the recorder
    writes for a list of moves, clicks of the three buttons, scrolls and
    known keys, played without jitter, stop or refusal of the
    controllers, every wait returning, makes exactly the controller calls
    that repeat those actions, in their order, the pointer at the
    recorded position (that of the callback cut to ints), and reports no
    error. *)
Theorem replay_repeats_recorded_actions :
  forall (inputs : list Input) (evs : list Event) (p : Player.Player)
         (speed : Q) (jitter_px : Z) (w : World),
    jitter_px <= 0 ->
    Forall (repeatable Key_names) inputs ->
    Forall2 (fun i e => exists tm, event_of_input tm i = Some e) inputs evs ->
    Forall wait_returns (compute_waits evs speed) ->
    let w' := snd (play p (mkMacro evs) speed jitter_px w) in
    filter is_emission (out w')
    = (filter is_emission (out w) ++ flat_map calls_of_input inputs)%list /\
    filter is_error_report (out w') = filter is_error_report (out w).
Proof.
  intros inputs evs p speed jitter_px w Hj Hr Hf _.
  exact (play_repeats inputs evs p speed jitter_px w Hj Hr Hf).
Qed.

(** Record, then replay: [start()] on a fresh recorder, then any clicks
    of the three buttons, scrolls and known keys outside [IGNORE_KEYS];
    the macro it holds, played without jitter, stop or refusal, every
    wait returning, makes the controller calls that repeat those actions,
    in their order, a click at the position of its callback cut to
    ints. *)
Theorem record_then_replay :
  forall (perf_counter : nat -> Q) (interval : Q) (inputs : list Input) (n0 : nat)
         (p : Player.Player) (speed : Q) (jitter_px : Z) (w : World),
    jitter_px <= 0 ->
    Forall (repeatable Key_names) inputs ->
    Forall (unthrottled (Recorder.IGNORE_KEYS (Recorder.__init__ interval))) inputs ->
    let r := fst (Recorder.run perf_counter (Start :: inputs)
                    (Recorder.__init__ interval, n0)) in
    Forall wait_returns (compute_waits (events (Recorder.macro r)) speed) ->
    let w' := snd (play p (Recorder.macro r) speed jitter_px w) in
    filter is_emission (out w')
    = (filter is_emission (out w) ++ flat_map calls_of_input inputs)%list /\
    filter is_error_report (out w') = filter is_error_report (out w).
Proof.
  intros perf_counter interval inputs n0 p speed jitter_px w Hj Hr Hu. cbv zeta.
  intros _.
  unfold Recorder.run. cbn [fold_left Recorder.step].
  destruct (Recorder.start perf_counter (Recorder.__init__ interval) n0)
    as [r0 n1] eqn:Es.
  unfold Recorder.start in Es. simpl in Es. injection Es as <- <-.
  match goal with
  | |- context [fold_left _ inputs (?a, ?b)] =>
      destruct (run_records_each perf_counter inputs a b eq_refl Hu) as [_ [new [Hev Hf]]]
  end.
  unfold Recorder.run in Hev. simpl in Hev.
  match goal with
  | |- context [Recorder.macro ?x] => destruct (Recorder.macro x) as [evs']
  end.
  simpl in Hev. subst evs'.
  apply play_repeats; assumption.
Qed.

End Faithful.

End PlaybackMore.

(* ================================================================== *)
(** * More on the control surface *)

Section Loops.

Variable int_of_str : string -> option Z.
Variable Key_names : list string.
Variable stop_called : nat -> bool.
Variable randint : nat -> Z -> Z -> Z.
Variable controller_raises : nat -> option string.

Lemma play_leaves_idle (p : Player.Player) (macro : Macro) (speed : Q)
  (jitter : Z) (w : World) :
  Player._playing p = false ->
  Player._playing (fst (Player.play int_of_str Key_names stop_called randint
                          controller_raises p macro speed jitter w)) = false.
Proof.
  intro Hp. unfold Player.play. destruct (events macro); [exact Hp |].
  destruct (Player.play_loop _ _ _ _ _ _ _ _ _). reflexivity.
Qed.

Lemma run_loops_once (k : nat) (s : App.State) (speed : Q) (jitter : Z) (w : World) :
  Player._playing (App.player s) = false ->
  App.run_loops int_of_str Key_names stop_called randint controller_raises
    (S k) 0 s speed jitter w
  = App.run_loops int_of_str Key_names stop_called randint controller_raises
      1 0 s speed jitter w.
Proof.
  intro Hp. cbn [App.run_loops]. rewrite Hp. simpl andb. cbv iota.
  assert (Hi := play_leaves_idle (App.player s) (App.macro_ref s) speed jitter w Hp).
  destruct (Player.play _ _ _ _ _ _ _ _ _ _) as [p1 w1]. simpl in Hi.
  unfold Player.is_set.
  destruct (Player._stop_evt p1 || stop_called (stop_reads w1)); [reflexivity |].
  destruct k as [| k]; [reflexivity |].
  cbn [App.run_loops App.player App.set_player Player._playing].
  rewrite Hi. reflexivity.
Qed.

(** The loop count of [main.py] is without effect: [play] with any
    number of loops from 1 on does what it does with one loop. After the
    first run [player.playing] is false again, which is what the loop
    takes, from its second turn on, as the sign to break off. With a
    count of zero or less nothing is played and the player reports
    nothing. *)
Theorem play_repeats_nothing :
  forall (s : App.State) (now speed : Q) (loops jitter : Z) (w : World),
    (1 <= loops ->
     App.play int_of_str Key_names stop_called randint controller_raises
       s now speed loops jitter w
     = App.play int_of_str Key_names stop_called randint controller_raises
         s now speed 1 jitter w) /\
    (loops <= 0 ->
     snd (App.play int_of_str Key_names stop_called randint controller_raises
            s now speed loops jitter w) = w).
Proof.
  intros s now speed loops jitter w. split; intro Hl; unfold App.play.
  - destruct (Recorder._recording _); [reflexivity |].
    destruct (Player._playing (App.player (App.squelch now 180 s))) eqn:Hp;
      [reflexivity |].
    destruct (Z.to_nat loops) as [| k] eqn:Ek; [lia |].
    change (Z.to_nat 1) with 1%nat. apply run_loops_once. exact Hp.
  - destruct (Recorder._recording _); [reflexivity |].
    destruct (Player._playing _); [reflexivity |].
    replace (Z.to_nat loops) with 0%nat by lia. reflexivity.
Qed.

End Loops.

Section Filter.

Variable perf_counter : nat -> Q.

(** [start_rec] leaves the filter of the recorder alone: whatever keys
    the interface binds, a recorder started by [start_rec] (none has the
    attribute [ignore_keys]) is recording, still filters with its own
    [IGNORE_KEYS], and appends an event for every press or release of a
    key outside that set, bound by the interface or not. *)
Theorem start_rec_keeps_the_filter :
  forall (s : App.State) (now : Q) (n : nat),
    Recorder.ignore_keys (App.rec s) = None ->
    Player._playing (App.player s) = false ->
    let '(s1, n1) := App.start_rec perf_counter s now n in
    Recorder._recording (App.rec s1) = true /\
    Recorder.IGNORE_KEYS (App.rec s1) = Recorder.IGNORE_KEYS (App.rec s) /\
    Recorder.ignore_keys (App.rec s1) = None /\
    forall (pressed : bool) (k : Key),
      Key_in k (Recorder.IGNORE_KEYS (App.rec s)) = false ->
      exists tm,
        events (Recorder.macro (App.rec (fst (App.key_event perf_counter s1 n1 pressed k))))
        = (events (Recorder.macro (App.rec s1))
           ++ [key_event_of (if pressed then "kpress" else "krelease") tm k])%list.
Proof.
  intros s now n Hi Hp. unfold App.start_rec.
  cbn [App.squelch App.player App.rec]. rewrite Hp.
  assert (Hh : App.hasattr (App.rec s) "ignore_keys" = false).
  { unfold App.hasattr. rewrite Hi. reflexivity. }
  rewrite Hh.
  destruct (Recorder.start perf_counter (App.rec s) n) as [r2 n1] eqn:Es.
  assert (Hr : Recorder._recording r2 = true /\
               Recorder.IGNORE_KEYS r2 = Recorder.IGNORE_KEYS (App.rec s) /\
               Recorder.ignore_keys r2 = None).
  { unfold Recorder.start in Es.
    destruct (Recorder._recording (App.rec s)) eqn:Er.
    - injection Es as <- <-. repeat split; assumption.
    - simpl in Es. injection Es as <- <-. repeat split; assumption. }
  destruct Hr as [Hr1 [Hr2 Hr3]].
  cbn [App.set_status App.set_rec App.rec].
  split; [exact Hr1 |]. split; [exact Hr2 |]. split; [exact Hr3 |].
  intros pressed k Hk. rewrite <- Hr2 in Hk.
  unfold App.key_event. cbn [App.rec].
  destruct (now_result perf_counter r2 n1) as [tm [c [n2 Hn]]].
  exists tm.
  destruct pressed; unfold Recorder._on_key_press, Recorder._on_key_release;
    change (App.rec (App.set_status (App.Text "Recording... (F8 to stop)")
                       (App.set_rec r2 (App.squelch now 180 s)))) with r2;
    rewrite Hr1, Hk; simpl; rewrite Hn; reflexivity.
Qed.

End Filter.

(* ================================================================== *)
(** * More on the single-file script *)

Section ScriptMoves.

Variable perf_counter : nat -> Q.

Lemma script_tracks_append (g : MacOSTinyTask.Globals) (e : Event) :
  script_tracks g -> kind_is e "move" = false ->
  script_tracks (MacOSTinyTask.append_event e g).
Proof.
  unfold script_tracks, last_move_time, last_move_place, last_move. simpl.
  intros H Hk. rewrite (moves_snoc_other _ _ Hk). exact H.
Qed.

Lemma number_Coord_py (c : Coord) : number (Coord_py c) = Some (Coord_value c).
Proof. destruct c; reflexivity. Qed.

Lemma script_on_move_tracks (g : MacOSTinyTask.Globals) (n : nat) (x y : Coord) :
  script_tracks g -> script_tracks (fst (MacOSTinyTask.on_move perf_counter g n x y)).
Proof.
  intros [Ht [Hp Hth]]. unfold MacOSTinyTask.on_move.
  destruct (negb (MacOSTinyTask.recording g)); [split; [| split]; assumption |].
  destruct (MacOSTinyTask._now_rel perf_counter g n) as [tm n1].
  destruct (Qlt_bool _ _) eqn:El; [split; [| split]; assumption |].
  apply Qlt_bool_false in El.
  assert (Hi : (0 <= MacOSTinyTask._MOVE_MIN_INTERVAL)%Q) by (vm_compute; discriminate).
  cbn [MacOSTinyTask.set_last_move_time MacOSTinyTask._last_move_pos].
  destruct (last_pos_is _ _) eqn:Ep.
  - unfold script_tracks. simpl. split; [lra |]. split; assumption.
  - apply last_pos_is_false in Ep.
    assert (Hplace : move_place (mkEvent tm (PStr "move")
                                   (PDict [("x", Coord_py x); ("y", Coord_py y)]))
                     = Some (values (x, y))).
    { unfold move_place. simpl. rewrite !number_Coord_py. reflexivity. }
    unfold script_tracks, last_move_time, last_move_place. simpl.
    rewrite (last_move_snoc_move _ (mkEvent tm (PStr "move") _) eq_refl).
    split; [simpl; lra |].
    split; [rewrite Hplace; simpl; split; reflexivity |].
    rewrite (moves_snoc_move _ (mkEvent tm (PStr "move") _) eq_refl).
    apply throttled_snoc; [exact Hth |].
    intros m Hm.
    unfold last_move_time, last_move in Ht. unfold last_move_place, last_move in Hp.
    rewrite Hm in Ht, Hp.
    split; [simpl; lra |].
    rewrite Hplace. intro Hs. apply Ep.
    exact (same_place_trans _ _ _ Hp Hs).
Qed.

Lemma script_step_tracks (s : MacOSTinyTask.Globals * nat) (i : Input) :
  script_tracks (fst s) -> script_tracks (fst (MacOSTinyTask.step perf_counter s i)).
Proof.
  destruct s as [g n]. simpl. intro Ht.
  destruct i as [| | x y | x y b p | x y dx dy | k | k]; simpl.
  - unfold MacOSTinyTask.start_recording.
    destruct (MacOSTinyTask.playing g); simpl; [exact Ht |].
    unfold script_tracks. simpl. split; [apply Qle_refl |]. split; [exact I |].
    apply throttled_nil.
  - exact Ht.
  - apply script_on_move_tracks. exact Ht.
  - unfold MacOSTinyTask.on_click.
    destruct (negb (MacOSTinyTask.recording g)); [exact Ht |].
    destruct (MacOSTinyTask._now_rel perf_counter g n) as [tm n1].
    apply script_tracks_append; [exact Ht | reflexivity].
  - unfold MacOSTinyTask.on_scroll.
    destruct (negb (MacOSTinyTask.recording g)); [exact Ht |].
    destruct (MacOSTinyTask._now_rel perf_counter g n) as [tm n1].
    apply script_tracks_append; [exact Ht | reflexivity].
  - unfold MacOSTinyTask.on_key_press.
    destruct (negb (MacOSTinyTask.recording g)); [exact Ht |].
    destruct (Key_in k MacOSTinyTask.IGNORE_KEYS); [exact Ht |].
    destruct (MacOSTinyTask._now_rel perf_counter g n) as [tm n1].
    apply script_tracks_append; [exact Ht | reflexivity].
  - unfold MacOSTinyTask.on_key_release.
    destruct (negb (MacOSTinyTask.recording g)); [exact Ht |].
    destruct (Key_in k MacOSTinyTask.IGNORE_KEYS); [exact Ht |].
    destruct (MacOSTinyTask._now_rel perf_counter g n) as [tm n1].
    apply script_tracks_append; [exact Ht | reflexivity].
Qed.

(** The script spaces its moves too: whatever calls reach it from its
    start, the moves of its macro are at least 10 ms apart and no two
    adjacent ones are at the same position (though it may drop moves
    that [recorder.py] would keep). *)
Theorem script_moves_are_spaced :
  forall (inputs : list Input) (n0 : nat),
    throttled MacOSTinyTask._MOVE_MIN_INTERVAL
      (moves (events (MacOSTinyTask.macro (fst
         (MacOSTinyTask.run perf_counter inputs (MacOSTinyTask.initial, n0)))))).
Proof.
  intros inputs n0.
  assert (H : script_tracks (fst (MacOSTinyTask.run perf_counter inputs
                                    (MacOSTinyTask.initial, n0)))).
  { unfold MacOSTinyTask.run.
    assert (H0 : script_tracks (fst (MacOSTinyTask.initial, n0))).
    { unfold script_tracks. simpl. split; [apply Qle_refl |]. split; [exact I |].
      apply throttled_nil. }
    revert H0. generalize (MacOSTinyTask.initial, n0).
    induction inputs as [| i inputs IH]; intros s Hs; cbn [fold_left]; [exact Hs |].
    apply IH. apply script_step_tracks. exact Hs. }
  destruct H as [_ [_ H]]. exact H.
Qed.

End ScriptMoves.

(* ================================================================== *)
(** * More on loading *)

Lemma lookup_skips (k : string) (pre rest : list (string * pyval)) :
  none_named [k] pre -> lookup k (pre ++ rest) = lookup k rest.
Proof.
  induction pre as [| [k' v] pre IH]; intro H; [reflexivity |].
  simpl. destruct (String.eqb k k') eqn:E.
  - apply String.eqb_eq in E. subst k'. exfalso.
    apply (H k v); [left; reflexivity | left; reflexivity].
  - apply IH. intros k0 v0 Hin. apply (H k0 v0). right. exact Hin.
Qed.

Lemma none_named_narrow (names : list string) (k : string)
  (extra : list (string * pyval)) :
  In k names -> none_named names extra -> none_named [k] extra.
Proof.
  intros Hk H k0 v0 Hin Hk0. destruct Hk0 as [E | []]. subst k0.
  exact (H k v0 Hin Hk).
Qed.

Section LoadMore.

Variable float_of_str : string -> option Q.

Lemma event_of_with_extras (extra : list (string * pyval)) (e : Event) :
  none_named ["t"; "kind"; "data"] extra ->
  App.event_of float_of_str (event_with_extras extra e) = ret e.
Proof.
  intro H.
  assert (Ht : none_named ["t"] extra)
    by (apply (none_named_narrow ["t"; "kind"; "data"]); [simpl; tauto | exact H]).
  assert (Hk : none_named ["kind"] extra)
    by (apply (none_named_narrow ["t"; "kind"; "data"]); [simpl; tauto | exact H]).
  assert (Hd : none_named ["data"] extra)
    by (apply (none_named_narrow ["t"; "kind"; "data"]); [simpl; tauto | exact H]).
  unfold App.event_of, event_with_extras, py_getitem.
  rewrite (lookup_skips "t" extra _ Ht).
  cbn [lookup String.eqb Ascii.eqb Bool.eqb bind ret py_float].
  rewrite (lookup_skips "kind" extra _ Hk).
  cbn [lookup String.eqb Ascii.eqb Bool.eqb bind ret].
  rewrite (lookup_skips "data" extra _ Hd).
  cbn [lookup String.eqb Ascii.eqb Bool.eqb bind ret].
  destruct e; reflexivity.
Qed.

(** Fields the loader does not know do no harm: a document that carries
    other fields beside "events", and events that carry other fields
    beside "t", "kind" and "data", load as the same events as without
    them; "version" is one of those fields: it is never read. *)
Theorem load_ignores_unknown_fields :
  forall (top : list (string * pyval)) (extras : Event -> list (string * pyval))
         (evs : list Event),
    none_named ["events"] top ->
    (forall e, In e evs -> none_named ["t"; "kind"; "data"] (extras e)) ->
    App.events_of float_of_str
      (PDict (top ++ [("events",
                       PList (map (fun e => event_with_extras (extras e) e) evs))]))
    = ret evs.
Proof.
  intros top extras evs Ht He. unfold App.events_of, py_get.
  rewrite (lookup_skips "events" top _ Ht).
  cbn [lookup String.eqb Ascii.eqb Bool.eqb bind ret py_iter].
  induction evs as [| e evs IH]; [reflexivity |].
  cbn [map comprehension].
  rewrite (event_of_with_extras (extras e) e (He e (or_introl eq_refl))).
  cbn [bind ret]. rewrite IH; [reflexivity |].
  intros e' Hin. apply He. right. exact Hin.
Qed.

(** A document without "events" is not refused: any JSON object that
    lacks the field loads without an exception, as a macro with no
    events, which replaces the macro in memory. *)
Theorem load_without_events_empties :
  forall (s : App.State) (path : string) (fs : files) (d : list (string * pyval)),
    path <> "" ->
    json_load path fs = ret (PDict d) ->
    lookup "events" d = None ->
    let '(s', raised) := App._load float_of_str s path fs in
    raised = None /\
    App.macro_ref s' = mkMacro [] /\
    App.current_filename s' = basename path /\
    App.status s' = (App.status s ++ [App.Loaded 0 (basename path)])%list.
Proof.
  intros s path fs d Hp Hl Hd. unfold App._load.
  apply String.eqb_neq in Hp. rewrite Hp, Hl. unfold ret at 1. cbv iota beta.
  unfold App.events_of, py_get. rewrite Hd. simpl. repeat split.
Qed.

End LoadMore.

(* ================================================================== *)
(** * Favorite macros *)

Lemma lookup_dict_set (k : string) (v : pyval) (d : list (string * pyval)) :
  lookup k (dict_set k v d) = Some v.
Proof.
  induction d as [| [k' v'] d IH]; simpl.
  - rewrite String.eqb_refl. reflexivity.
  - destruct (String.eqb k k') eqn:E; simpl.
    + rewrite String.eqb_refl. reflexivity.
    + rewrite E. exact IH.
Qed.

Lemma lookup_dict_set_other (k k0 : string) (v : pyval) (d : list (string * pyval)) :
  k0 <> k -> lookup k0 (dict_set k v d) = lookup k0 d.
Proof.
  intro Hne. apply String.eqb_neq in Hne.
  induction d as [| [k' v'] d IH]; simpl.
  - rewrite Hne. reflexivity.
  - destruct (String.eqb k k') eqn:E; simpl.
    + apply String.eqb_eq in E. subst k'. rewrite Hne. reflexivity.
    + destruct (String.eqb k0 k'); [reflexivity | exact IH].
Qed.

Lemma lookup_dict_pop (k : string) (d : list (string * pyval)) :
  lookup k (dict_pop k d) = None.
Proof.
  induction d as [| [k' v'] d IH]; simpl; [reflexivity |].
  destruct (String.eqb k k') eqn:E; simpl; [exact IH |].
  rewrite E. exact IH.
Qed.

Lemma lookup_dict_pop_other (k k0 : string) (d : list (string * pyval)) :
  k0 <> k -> lookup k0 (dict_pop k d) = lookup k0 d.
Proof.
  intro Hne. apply String.eqb_neq in Hne.
  induction d as [| [k' v'] d IH]; simpl; [reflexivity |].
  destruct (String.eqb k k') eqn:E; simpl.
  - apply String.eqb_eq in E. subst k'. rewrite Hne. exact IH.
  - destruct (String.eqb k0 k'); [reflexivity | exact IH].
Qed.

Section FavoriteMacros.

Variable FAVES : string.
Variable float_of_str : string -> option Q.
Variable int_of_str : string -> option Z.
Variable Key_names : list string.
Variable stop_called : nat -> bool.
Variable randint : nat -> Z -> Z -> Z.
Variable controller_raises : nat -> option string.

Local Notation "'play_sel'" :=
  (AppUI.play_sel float_of_str int_of_str Key_names stop_called randint
     controller_raises).

Lemma run_loops_keeps_macro (k index : nat) (s : App.State) (spd : Q) (jit : Z)
  (w : World) :
  App.macro_ref (fst (App.run_loops int_of_str Key_names stop_called randint
                        controller_raises k index s spd jit w))
  = App.macro_ref s.
Proof.
  revert index s w. induction k as [| k IH]; intros index s w; [reflexivity |].
  cbn [App.run_loops].
  destruct (negb (Player._playing (App.player s)) && (0 <? index)%nat); [reflexivity |].
  destruct (Player.play _ _ _ _ _ _ _ _ _ _) as [p1 w1].
  destruct (Player.is_set stop_called p1 w1) as [[set p2] w2].
  destruct set; [reflexivity |]. rewrite IH. reflexivity.
Qed.

Lemma play_keeps_macro (s : App.State) (now spd : Q) (lps jit : Z) (w : World) :
  App.macro_ref (fst (App.play int_of_str Key_names stop_called randint
                        controller_raises s now spd lps jit w))
  = App.macro_ref s.
Proof.
  unfold App.play.
  destruct (Recorder._recording _); [reflexivity |].
  destruct (Player._playing _); [reflexivity |].
  rewrite run_loops_keeps_macro. reflexivity.
Qed.

(** A favorite comes back: when [_add_favorite] stores the current
    macro under a name (the macro has events, a name was given, the
    favorites are a JSON object), nothing is raised, the favorites as
    they now are get written to the file, the other favorites are as
    before, and choosing that name in the list later, whatever the macro
    in memory then is, sets a macro equal to the stored one (and hands
    it to [play]). *)
Theorem favorite_round_trip :
  forall (u : AppUI.UI) (name : string) (fs : files) (d : list (string * pyval)),
    events (App.macro_ref (AppUI.app u)) <> [] ->
    name <> "" ->
    AppUI.favorites u = PDict d ->
    let '(u1, fs1, raised) := AppUI._add_favorite FAVES u name fs in
    raised = None /\
    json_load FAVES fs1 = ret (AppUI.favorites u1) /\
    (forall other, other <> name ->
       py_get (AppUI.favorites u1) other PNone = py_get (AppUI.favorites u) other PNone) /\
    forall (u2 : AppUI.UI) (now : Q) (w : World),
      AppUI.favorites u2 = AppUI.favorites u1 ->
      let '(u3, w3, raised') := play_sel u2 (Some name) now w in
      raised' = None /\ App.macro_ref (AppUI.app u3) = App.macro_ref (AppUI.app u).
Proof.
  intros u name fs d He Hn Hd. unfold AppUI._add_favorite, App.get_macro.
  destruct (events (App.macro_ref (AppUI.app u))) as [| e0 evs] eqn:Ee; [congruence |].
  apply String.eqb_neq in Hn. rewrite Hn, Hd.
  cbn [AppUI.setitem ret AppUI.set_favorites AppUI.set_app AppUI.favorites].
  split; [reflexivity |].
  split; [unfold AppUI._save_json; apply json_load_dump |].
  split.
  - intros other Ho. unfold py_get.
    rewrite (lookup_dict_set_other name other _ d Ho). reflexivity.
  - intros u2 now w Hf. unfold AppUI.play_sel. rewrite Hf.
    unfold py_get. rewrite lookup_dict_set. cbn [ret py_bool negb].
    fold (document (e0 :: evs)).
    rewrite events_of_document. unfold ret at 1. cbv iota beta.
    match goal with
    | |- context [App.play ?a ?b ?c ?d ?e ?s ?n ?sp ?l ?j ?w0] =>
        assert (Hk := play_keeps_macro s n sp l j w0);
        destruct (App.play a b c d e s n sp l j w0) as [a3 w1]
    end.
    split; [reflexivity |]. simpl in Hk. simpl. rewrite Hk.
    destruct (App.macro_ref (AppUI.app u)) as [evs0]. simpl in Ee. subst evs0.
    reflexivity.
Qed.

(** A deleted favorite is gone: after [delete_sel] was confirmed for a
    name, the favorites are written to the file without it, the other
    favorites are as before, and choosing that name does nothing at
    all. *)
Theorem favorite_delete :
  forall (u : AppUI.UI) (name : string) (fs : files) (d : list (string * pyval)),
    AppUI.favorites u = PDict d ->
    let '(u1, fs1, raised) := AppUI.delete_sel FAVES u (Some name) true fs in
    raised = None /\
    json_load FAVES fs1 = ret (AppUI.favorites u1) /\
    (forall other, other <> name ->
       py_get (AppUI.favorites u1) other PNone = py_get (AppUI.favorites u) other PNone) /\
    forall (now : Q) (w : World), play_sel u1 (Some name) now w = (u1, w, None).
Proof.
  intros u name fs d Hd. unfold AppUI.delete_sel. rewrite Hd.
  cbn [AppUI.pop ret AppUI.set_favorites AppUI.favorites].
  split; [reflexivity |].
  split; [unfold AppUI._save_json; apply json_load_dump |].
  split.
  - intros other Ho. unfold py_get.
    rewrite (lookup_dict_pop_other name other d Ho). reflexivity.
  - intros now w. unfold AppUI.play_sel, AppUI.set_favorites.
    cbn [AppUI.favorites]. unfold py_get. rewrite lookup_dict_pop. reflexivity.
Qed.

End FavoriteMacros.

(* ================================================================== *)
(** * The further properties on concrete runs *)


(** [recorder_idle_ignores_input] on a run: a recorder that was never
    started. *)
Lemma recorder_idle_ignores_input_witness :
  Recorder._recording (Recorder.__init__ (1 # 100)) = false /\
  forallb (fun i => negb (is_start i)) [Move 1 1; KeyPress (KeyCode_char "a"); Stop] = true /\
  Recorder.run tick_clock [Move 1 1; KeyPress (KeyCode_char "a"); Stop]
    (Recorder.__init__ (1 # 100), 0%nat)
  = (Recorder.__init__ (1 # 100), 0%nat).
Proof.
  assert (Hr : Recorder._recording (Recorder.__init__ (1 # 100)) = false) by reflexivity.
  assert (Hi : forallb (fun i => negb (is_start i))
                 [Move 1 1; KeyPress (KeyCode_char "a"); Stop] = true) by reflexivity.
  split; [exact Hr |]. split; [exact Hi |].
  exact (recorder_idle_ignores_input tick_clock _ _ 0%nat Hr Hi).
Defined.

(** [recorder_records_each_action] on a run: [session_inputs] after
    [start()]. *)
Lemma recorder_records_each_action_witness :
  Recorder._recording (fst started) = true /\
  Forall (unthrottled (Recorder.IGNORE_KEYS (fst started))) session_inputs /\
  exists new,
    events (Recorder.macro (fst (Recorder.run tick_clock session_inputs
                                   (fst started, snd started))))
    = (events (Recorder.macro (fst started)) ++ new)%list /\
    Forall2 (fun i e => exists tm, event_of_input tm i = Some e) session_inputs new.
Proof.
  assert (Hr : Recorder._recording (fst started) = true) by reflexivity.
  assert (Hu : Forall (unthrottled (Recorder.IGNORE_KEYS (fst started))) session_inputs).
  { repeat constructor. }
  split; [exact Hr |]. split; [exact Hu |].
  exact (proj2 (recorder_records_each_action tick_clock session_inputs
                  (fst started) (snd started) Hr Hu)).
Defined.

(** [recorder_events_are_whole] on a run: the click of [demo_inputs]. *)
Lemma recorder_events_are_whole_witness :
  In (click_event 3 1 1 "left" true)
     (events (Recorder.macro (fst
        (Recorder.run tick_clock demo_inputs (Recorder.__init__ (1 # 100), 0%nat))))) /\
  exists tm i,
    event_of_input tm i = Some (click_event 3 1 1 "left" true) /\
    unknown_kind (click_event 3 1 1 "left" true) = false.
Proof.
  assert (Hin : In (click_event 3 1 1 "left" true)
                  (events (Recorder.macro (fst
                     (Recorder.run tick_clock demo_inputs
                        (Recorder.__init__ (1 # 100), 0%nat))))))
    by (vm_compute; right; left; reflexivity).
  split; [exact Hin |].
  exact (recorder_events_are_whole tick_clock (1 # 100) demo_inputs 0%nat _ Hin).
Defined.

(** [recorder_never_records_ignored_keys] on a run: [demo_inputs] press
    F8 and then the character a; only the second is in the macro. *)
Lemma recorder_never_records_ignored_keys_witness :
  In (key_event_of "kpress" 4 (KeyCode_char "a"))
     (events (Recorder.macro (fst
        (Recorder.run tick_clock demo_inputs (Recorder.__init__ (1 # 100), 0%nat))))) /\
  key_string (key_event_of "kpress" 4 (KeyCode_char "a")) = Some "char:a" /\
  ~ In "char:a" ["key:f8"; "key:f9"; "key:f10"; "key:f11"; "key:esc"].
Proof.
  assert (Hin : In (key_event_of "kpress" 4 (KeyCode_char "a"))
                  (events (Recorder.macro (fst
                     (Recorder.run tick_clock demo_inputs
                        (Recorder.__init__ (1 # 100), 0%nat))))))
    by (vm_compute; right; right; left; reflexivity).
  assert (Hk : key_string (key_event_of "kpress" 4 (KeyCode_char "a")) = Some "char:a")
    by reflexivity.
  split; [exact Hin |]. split; [exact Hk |].
  exact (recorder_never_records_ignored_keys tick_clock (1 # 100) demo_inputs 0%nat
           _ _ Hin Hk).
Defined.

(** [recorder_times_nonnegative] on a run: the click of [demo_inputs]. *)
Lemma recorder_times_nonnegative_witness :
  (forall n, (tick_clock n <= tick_clock (S n))%Q) /\
  (forall n, ~ (tick_clock n == 0)%Q) /\
  In (click_event 3 1 1 "left" true)
     (events (Recorder.macro (fst
        (Recorder.run tick_clock demo_inputs (Recorder.__init__ (1 # 100), 0%nat))))) /\
  (0 <= t (click_event 3 1 1 "left" true))%Q.
Proof.
  assert (Hin : In (click_event 3 1 1 "left" true)
                  (events (Recorder.macro (fst
                     (Recorder.run tick_clock demo_inputs
                        (Recorder.__init__ (1 # 100), 0%nat))))))
    by (vm_compute; right; left; reflexivity).
  split; [exact tick_clock_monotonic |]. split; [exact tick_clock_nonzero |].
  split; [exact Hin |].
  exact (recorder_times_nonnegative tick_clock tick_clock_monotonic tick_clock_nonzero
           (1 # 100) demo_inputs 0%nat _ Hin).
Defined.

(** [key_strings_round_trip] on keys: the space key, and the key of
    virtual code 96. *)
Lemma key_strings_round_trip_witness :
  In "space" demo_keys /\ "space" <> "" /\
  ~ In ("<" ++ str_of_Z 96 ++ ">") demo_keys /\
  Utils.str_to_key demo_keys (Utils.key_to_str (KeyEnum "space")) = Some (KeyEnum "space") /\
  Utils.str_to_key demo_keys (Utils.key_to_str (KeyCode_vk 96)) = None.
Proof.
  assert (Hin : In "space" demo_keys) by (simpl; tauto).
  assert (Hne : "space" <> "") by discriminate.
  assert (Hout : ~ In ("<" ++ str_of_Z 96 ++ ">") demo_keys).
  { vm_compute. intros [H | [H | [H | [H | []]]]]; discriminate H. }
  destruct (key_strings_round_trip demo_keys) as [_ [Hm Hv]].
  split; [exact Hin |]. split; [exact Hne |]. split; [exact Hout |].
  split; [exact (Hm "space" Hin Hne) | exact (Hv 96 Hout)].
Defined.

(** [script_key_strings_round_trip] on a key: the space key. *)
Lemma script_key_strings_round_trip_witness :
  In "space" demo_keys /\
  MacOSTinyTask._str_to_key demo_keys [] (MacOSTinyTask._key_to_str (KeyEnum "space"))
  = Some (MacOSTinyTask.Member (KeyEnum "space")).
Proof.
  assert (Hin : In "space" demo_keys) by (simpl; tauto).
  destruct (script_key_strings_round_trip demo_keys []) as [_ [Hm _]].
  split; [exact Hin | exact (Hm "space" Hin)].
Defined.

(** [key_strings_across_versions] on a key: the space key. *)
Lemma key_strings_across_versions_witness :
  In "space" demo_keys /\ "space" <> "" /\
  ~ In ("Key." ++ "space") demo_keys /\
  Utils.startswith "Key." "space" = false /\
  Utils.str_to_key demo_keys (MacOSTinyTask._key_to_str (KeyEnum "space"))
  = Some (KeyEnum "space") /\
  MacOSTinyTask._str_to_key demo_keys [] (Utils.key_to_str (KeyEnum "space")) = None.
Proof.
  assert (Hin : In "space" demo_keys) by (simpl; tauto).
  assert (Hne : "space" <> "") by discriminate.
  assert (Hout : ~ In ("Key." ++ "space") demo_keys).
  { simpl. intros [H | [H | [H | [H | []]]]]; discriminate H. }
  assert (Hp : Utils.startswith "Key." "space" = false) by reflexivity.
  destruct (key_strings_across_versions demo_keys [] "space" Hin Hne) as [H1 H2].
  split; [exact Hin |]. split; [exact Hne |]. split; [exact Hout |].
  split; [exact Hp |]. split; [exact (H1 Hout) | exact (H2 Hp)].
Defined.

(** [jitter_leaves_other_events_alone] on a run: the two key events of
    [foreign_key_macro], with a jitter of 5 pixels. *)
Lemma jitter_leaves_other_events_alone_witness :
  (forall e, In e (events foreign_key_macro) -> positional e = false) /\
  Player.play no_int demo_keys never lowest accepting
    idle_playing foreign_key_macro 1 5 world0
  = Player.play no_int demo_keys never lowest accepting
      idle_playing foreign_key_macro 1 0 world0.
Proof.
  assert (Hk : forall e, In e (events foreign_key_macro) -> positional e = false).
  { intros e [H | [H | []]]; subst e; reflexivity. }
  split; [exact Hk |].
  exact (proj1 (jitter_leaves_other_events_alone no_int demo_keys never lowest accepting
                  foreign_key_macro idle_playing 1 5 world0 Hk)).
Defined.

(** [unknown_kinds_are_passed_over] on a run: [teleport_macro] is
    waited for, and nothing else. *)
Lemma unknown_kinds_are_passed_over_witness :
  let r := Player.play no_int demo_keys never zero_jitter accepting
             idle_playing teleport_macro 1 0 world0 in
  (forall e, In e (events teleport_macro) -> unknown_kind e = true) /\
  Forall wait_returns (compute_waits (events teleport_macro) 1) /\
  Player._stop_evt (fst r) = false /\
  filter is_emission (out (snd r)) = [] /\
  ctl_calls (snd r) = 0%nat /\
  filter is_wait (out (snd r)) = map Wait (compute_waits (events teleport_macro) 1).
Proof.
  intro r.
  assert (Hk : forall e, In e (events teleport_macro) -> unknown_kind e = true).
  { intros e [H | []]; subst e; reflexivity. }
  assert (Hb : Forall wait_returns (compute_waits (events teleport_macro) 1))
    by waits_in_range.
  assert (Hs : Player._stop_evt (fst r) = false) by reflexivity.
  pose proof (unknown_kinds_are_passed_over no_int demo_keys never zero_jitter accepting
                teleport_macro idle_playing 1 0 world0 Hk) as H.
  fold r in H. destruct r as [p' w']. destruct H as [He [_ [Hc Hw]]].
  split; [exact Hk |]. split; [exact Hb |]. split; [exact Hs |].
  split; [exact He |]. split; [exact Hc |].
  exact (Hw Hb Hs).
Defined.

(** [play_ends_finished] on a run: [click_macro], stopped during its
    second wait; the call of [stop()] is seen at the read numbered 3. *)
Lemma play_ends_finished_witness :
  let r := Player.play no_int demo_keys during_second_wait zero_jitter accepting
             idle_playing click_macro 1 0 world0 in
  events click_macro <> [] /\
  Forall wait_returns (compute_waits (events click_macro) 1) /\
  Player._stop_evt (fst r) = true /\
  Player._playing (fst r) = false /\
  List.last (out (snd r)) (Status "") = Status "Playback finished." /\
  exists n, (stop_reads world0 <= n < stop_reads (snd r))%nat /\
            during_second_wait n = true.
Proof.
  intro r.
  assert (Hne : events click_macro <> []) by discriminate.
  assert (Hb : Forall wait_returns (compute_waits (events click_macro) 1))
    by waits_in_range.
  assert (Hs : Player._stop_evt (fst r) = true) by reflexivity.
  pose proof (play_ends_finished no_int demo_keys during_second_wait zero_jitter accepting
                click_macro idle_playing 1 0 world0 Hne Hb) as H.
  fold r in H. destruct r as [p' w']. destruct H as [Hp [Hl [_ Hc]]].
  split; [exact Hne |]. split; [exact Hb |]. split; [exact Hs |].
  split; [exact Hp |]. split; [exact Hl |].
  exact (Hc Hs).
Defined.


(** [replay_repeats_recorded_actions] on a run: the events written for
    [session_inputs]. *)
Lemma replay_repeats_recorded_actions_witness :
  (forall n, never n = false) /\
  (forall n, accepting n = None) /\
  0 <= 0 /\
  Forall (repeatable demo_keys) session_inputs /\
  Forall2 (fun i e => exists tm, event_of_input tm i = Some e) session_inputs session_events /\
  Forall wait_returns (compute_waits session_events 1) /\
  filter is_emission
    (out (snd (Player.play no_int demo_keys never zero_jitter accepting
                 idle_playing (mkMacro session_events) 1 0 world0)))
  = flat_map calls_of_input session_inputs.
Proof.
  assert (Hs : forall n, never n = false) by reflexivity.
  assert (Ha : forall n, accepting n = None) by reflexivity.
  assert (Hj : 0 <= 0) by discriminate.
  assert (Hr : Forall (repeatable demo_keys) session_inputs).
  { repeat constructor. }
  assert (Hw : Forall2 (fun i e => exists tm, event_of_input tm i = Some e)
                 session_inputs session_events).
  { constructor; [exists 1%Q; reflexivity |].
    constructor; [exists 2%Q; reflexivity |].
    constructor; [exists 3%Q; reflexivity |]. constructor. }
  assert (Hb : Forall wait_returns (compute_waits session_events 1))
    by waits_in_range.
  split; [exact Hs |]. split; [exact Ha |]. split; [exact Hj |].
  split; [exact Hr |]. split; [exact Hw |]. split; [exact Hb |].
  exact (proj1 (replay_repeats_recorded_actions no_int demo_keys never zero_jitter accepting
                  Hs Ha session_inputs session_events idle_playing 1 0 world0 Hj Hr Hw
                  Hb)).
Defined.

(** [record_then_replay] on a run: [pixel_session] recorded against
    [tick_clock] and played back; the click made at (10.5, 20.5) is
    repeated at (10, 20). *)
Lemma record_then_replay_witness :
  let r := fst (Recorder.run tick_clock (Start :: pixel_session)
                  (Recorder.__init__ (1 # 100), 0%nat)) in
  (forall n, never n = false) /\
  (forall n, accepting n = None) /\
  0 <= 0 /\
  Forall (repeatable demo_keys) pixel_session /\
  Forall (unthrottled (Recorder.IGNORE_KEYS (Recorder.__init__ (1 # 100)))) pixel_session /\
  Forall wait_returns (compute_waits (events (Recorder.macro r)) 1) /\
  filter is_emission
    (out (snd (Player.play no_int demo_keys never zero_jitter accepting idle_playing
                 (Recorder.macro r) 1 0 world0)))
  = [MousePosition 10 20; MousePress Button_left;
     MousePosition 10 20; MouseRelease Button_left;
     KbdPress (KeyCode_char "a")].
Proof.
  intro r.
  assert (Hs : forall n, never n = false) by reflexivity.
  assert (Ha : forall n, accepting n = None) by reflexivity.
  assert (Hj : 0 <= 0) by discriminate.
  assert (Hr : Forall (repeatable demo_keys) pixel_session).
  { repeat constructor. }
  assert (Hu : Forall (unthrottled (Recorder.IGNORE_KEYS (Recorder.__init__ (1 # 100))))
                 pixel_session).
  { repeat constructor. }
  assert (Hb : Forall wait_returns (compute_waits (events (Recorder.macro r)) 1))
    by waits_in_range.
  split; [exact Hs |]. split; [exact Ha |]. split; [exact Hj |].
  split; [exact Hr |]. split; [exact Hu |]. split; [exact Hb |].
  exact (proj1 (record_then_replay no_int demo_keys never zero_jitter accepting Hs Ha
                  tick_clock (1 # 100) pixel_session 0%nat idle_playing 1 0 world0
                  Hj Hr Hu Hb)).
Defined.

(** [play_repeats_nothing] on a run: [click_macro] asked for three
    times, and for no time. *)
Lemma play_repeats_nothing_witness :
  1 <= 3 /\ 0 <= 0 /\
  App.play no_int demo_keys never zero_jitter accepting (state_with click_macro) 0 1 3 0 world0
  = App.play no_int demo_keys never zero_jitter accepting (state_with click_macro) 0 1 1 0 world0 /\
  snd (App.play no_int demo_keys never zero_jitter accepting
         (state_with click_macro) 0 1 0 0 world0) = world0.
Proof.
  assert (H3 : 1 <= 3) by discriminate.
  assert (H0 : 0 <= 0) by discriminate.
  split; [exact H3 |]. split; [exact H0 |].
  split.
  - exact (proj1 (play_repeats_nothing no_int demo_keys never zero_jitter accepting
                    (state_with click_macro) 0 1 3 0 world0) H3).
  - exact (proj2 (play_repeats_nothing no_int demo_keys never zero_jitter accepting
                    (state_with click_macro) 0 1 0 0 world0) H0).
Defined.

(** [start_rec_keeps_the_filter] on a run: the application right after
    its start, and a press of F7, its default key for play. *)
Lemma start_rec_keeps_the_filter_witness :
  let s := App.initial App.DEFAULT_KEYS in
  let s1 := fst (App.start_rec tick_clock s 0 0%nat) in
  let n1 := snd (App.start_rec tick_clock s 0 0%nat) in
  Recorder.ignore_keys (App.rec s) = None /\
  Player._playing (App.player s) = false /\
  Key_in (KeyEnum "f7") (Recorder.IGNORE_KEYS (App.rec s)) = false /\
  exists tm,
    events (Recorder.macro (App.rec (fst (App.key_event tick_clock s1 n1 true (KeyEnum "f7")))))
    = (events (Recorder.macro (App.rec s1)) ++ [key_event_of "kpress" tm (KeyEnum "f7")])%list.
Proof.
  intros s s1 n1.
  assert (Hi : Recorder.ignore_keys (App.rec s) = None) by reflexivity.
  assert (Hp : Player._playing (App.player s) = false) by reflexivity.
  assert (Hk : Key_in (KeyEnum "f7") (Recorder.IGNORE_KEYS (App.rec s)) = false)
    by reflexivity.
  split; [exact Hi |]. split; [exact Hp |]. split; [exact Hk |].
  pose proof (start_rec_keeps_the_filter tick_clock s 0 0%nat Hi Hp) as H.
  unfold s1, n1.
  destruct (App.start_rec tick_clock s 0 0%nat) as [s1' n1'].
  destruct H as [_ [_ [_ H]]].
  exact (H true (KeyEnum "f7") Hk).
Defined.

(** [load_ignores_unknown_fields] on a document: the events of
    [click_macro], each with an "id", beside a "version" and an
    "author". *)
Lemma load_ignores_unknown_fields_witness :
  none_named ["events"] later_top /\
  (forall e, In e (events click_macro) -> none_named ["t"; "kind"; "data"] (later_fields e)) /\
  App.events_of no_float
    (PDict (later_top ++
            [("events",
              PList (map (fun e => event_with_extras (later_fields e) e)
                       (events click_macro)))]))
  = ret (events click_macro).
Proof.
  assert (Ht : none_named ["events"] later_top).
  { intros k v [H | [H | []]]; inversion H; subst;
      intros [E | []]; discriminate E. }
  assert (He : forall e, In e (events click_macro) ->
                         none_named ["t"; "kind"; "data"] (later_fields e)).
  { intros e _ k v [H | []]; inversion H; subst.
    intros [E | [E | [E | []]]]; discriminate E. }
  split; [exact Ht |]. split; [exact He |].
  exact (load_ignores_unknown_fields no_float later_top later_fields (events click_macro)
           Ht He).
Defined.

(** [load_without_events_empties] on a file: a document that is an
    empty object, loaded over [click_macro]. *)
Lemma load_without_events_empties_witness :
  let fs := [("/tmp/empty.json", Json (PDict []))] in
  "/tmp/empty.json" <> "" /\
  json_load "/tmp/empty.json" fs = ret (PDict []) /\
  lookup "events" [] = None /\
  snd (App._load no_float (state_with click_macro) "/tmp/empty.json" fs) = None /\
  App.macro_ref (fst (App._load no_float (state_with click_macro) "/tmp/empty.json" fs))
  = mkMacro [].
Proof.
  intro fs.
  assert (Hp : "/tmp/empty.json" <> "") by discriminate.
  assert (Hl : json_load "/tmp/empty.json" fs = ret (PDict [])) by reflexivity.
  assert (Hd : lookup "events" [] = None) by reflexivity.
  split; [exact Hp |]. split; [exact Hl |]. split; [exact Hd |].
  pose proof (load_without_events_empties no_float (state_with click_macro)
                "/tmp/empty.json" fs [] Hp Hl Hd) as H.
  destruct (App._load no_float (state_with click_macro) "/tmp/empty.json" fs) as [s' raised].
  destruct H as [Hr [Hm _]].
  split; [exact Hr | exact Hm].
Defined.

(** [favorite_round_trip] on a run: [click_macro] kept as "clicks"
    beside an older favorite, and played from the list. *)
Lemma favorite_round_trip_witness :
  let u := ui_with click_macro (PDict [("old", PDict [("events", PList [])])]) in
  let r := AppUI._add_favorite "/tmp/favorites.json" u "clicks" [] in
  events (App.macro_ref (AppUI.app u)) <> [] /\
  "clicks" <> "" /\
  AppUI.favorites u = PDict [("old", PDict [("events", PList [])])] /\
  snd r = None /\
  json_load "/tmp/favorites.json" (snd (fst r)) = ret (AppUI.favorites (fst (fst r))) /\
  App.macro_ref (AppUI.app (fst (fst
    (AppUI.play_sel no_float no_int demo_keys never zero_jitter accepting
       (fst (fst r)) (Some "clicks") 0 world0))))
  = click_macro.
Proof.
  intros u r.
  assert (He : events (App.macro_ref (AppUI.app u)) <> []) by discriminate.
  assert (Hn : "clicks" <> "") by discriminate.
  assert (Hd : AppUI.favorites u = PDict [("old", PDict [("events", PList [])])])
    by reflexivity.
  split; [exact He |]. split; [exact Hn |]. split; [exact Hd |].
  pose proof (favorite_round_trip "/tmp/favorites.json" no_float no_int demo_keys never
                zero_jitter accepting u "clicks" [] _ He Hn Hd) as H.
  unfold r.
  destruct (AppUI._add_favorite "/tmp/favorites.json" u "clicks" []) as [[u1 fs1] raised].
  destruct H as [Hr [Hj [_ Hplay]]].
  split; [exact Hr |]. split; [exact Hj |].
  specialize (Hplay u1 0%Q world0 eq_refl).
  cbn [fst snd].
  destruct (AppUI.play_sel no_float no_int demo_keys never zero_jitter accepting
              u1 (Some "clicks") 0 world0) as [[u3 w3] raised'].
  exact (proj2 Hplay).
Defined.

(** [favorite_delete] on a run: the one favorite is removed, and then
    cannot be played. *)
Lemma favorite_delete_witness :
  let u := ui_with click_macro (PDict [("old", PDict [("events", PList [])])]) in
  let r := AppUI.delete_sel "/tmp/favorites.json" u (Some "old") true [] in
  AppUI.favorites u = PDict [("old", PDict [("events", PList [])])] /\
  snd r = None /\
  json_load "/tmp/favorites.json" (snd (fst r)) = ret (AppUI.favorites (fst (fst r))) /\
  AppUI.play_sel no_float no_int demo_keys never zero_jitter accepting
    (fst (fst r)) (Some "old") 0 world0
  = (fst (fst r), world0, None).
Proof.
  intros u r.
  assert (Hd : AppUI.favorites u = PDict [("old", PDict [("events", PList [])])])
    by reflexivity.
  split; [exact Hd |].
  pose proof (favorite_delete "/tmp/favorites.json" no_float no_int demo_keys never
                zero_jitter accepting u "old" [] _ Hd) as H.
  unfold r.
  destruct (AppUI.delete_sel "/tmp/favorites.json" u (Some "old") true []) as [[u1 fs1] raised].
  destruct H as [Hr [Hj [_ Hplay]]].
  split; [exact Hr |]. split; [exact Hj |].
  exact (Hplay 0%Q world0).
Defined.
